(** * scripts/generate_agent_metadata.py: title/description extraction and
      the directory scan, as a shallow embedding.

    Python [str] values are sequences of Unicode code points; they are
    modelled as lists of code points ([N]).  The string methods and the two
    regular expressions the script uses are modelled on that type, the
    file system the script reads is an oracle record, and the statements
    of [scan_section] and [main] live in a small state-and-exception
    monad (standard output and the written file are the state). *)

From Stdlib Require Import Ascii String.
From Stdlib Require Import List NArith Bool Arith Lia.
From Stdlib Require Import Permutation Sorted.
From Equations Require Import Equations.
Import ListNotations.

Local Open Scope N_scope.
Local Open Scope list_scope.

(** ** Strings *)

Definition char : Type := N.
Definition str : Type := list char.

Definition LF : char := 0x0A.
Definition CR : char := 0x0D.
Definition SPACE : char := 0x20.
Definition HASH : char := 0x23.
Definition SLASH : char := 0x2F.

(** ASCII literals, for readable examples. *)
Definition py (s : string) : str := map N_of_ascii (list_ascii_of_string s).

(** [str.isspace] on one code point: CPython's [_PyUnicode_IsWhitespace].
    [str.strip()] and the regular-expression class [\s] (on [str] patterns)
    both use this table. *)
Definition isspace (c : char) : bool :=
  ((0x09 <=? c) && (c <=? 0x0D)) || ((0x1C <=? c) && (c <=? 0x20))
  || (c =? 0x85) || (c =? 0xA0) || (c =? 0x1680)
  || ((0x2000 <=? c) && (c <=? 0x200A))
  || (c =? 0x2028) || (c =? 0x2029) || (c =? 0x202F) || (c =? 0x205F)
  || (c =? 0x3000).

(** Line boundaries of [str.splitlines]: CPython's [_PyUnicode_IsLinebreak]. *)
Definition is_linebreak (c : char) : bool :=
  ((0x0A <=? c) && (c <=? 0x0D)) || ((0x1C <=? c) && (c <=? 0x1E))
  || (c =? 0x85) || (c =? 0x2028) || (c =? 0x2029).

Definition is_hash (c : char) : bool := c =? HASH.
Definition is_lf (c : char) : bool := c =? LF.

Fixpoint dropwhile (p : char -> bool) (s : str) : str :=
  match s with
  | [] => []
  | c :: s' => if p c then dropwhile p s' else s
  end.

(** [s.lstrip()], [s.rstrip()], [s.strip()]: the leading run of whitespace
    is skipped, then the trailing run of what is left. *)
Definition lstrip (s : str) : str := dropwhile isspace s.
Definition rstrip (s : str) : str := rev (dropwhile isspace (rev s)).
Definition strip (s : str) : str := rstrip (lstrip s).

(** [s.startswith('#')] *)
Definition startswith_hash (s : str) : bool :=
  match s with
  | c :: _ => is_hash c
  | [] => false
  end.

(** [s.replace('\n', ' ')] *)
Definition replace_lf (s : str) : str :=
  map (fun c => if is_lf c then SPACE else c) s.

(** [s.splitlines()]: lines without their line boundary; "\r\n" is one
    boundary; no empty last line after a final boundary. *)
Fixpoint splitlines (s : str) : list str :=
  match s with
  | [] => []
  | c :: s' =>
      if is_linebreak c then
        [] :: match s' with
              | c' :: s'' =>
                  if (c =? CR) && (c' =? LF) then splitlines s''
                  else splitlines s'
              | [] => []
              end
      else
        match splitlines s' with
        | [] => [[c]]
        | l :: ls => (c :: l) :: ls
        end
  end.

(** ** Regular expressions

    The two patterns of the script are sequences of a character class
    with a quantifier.  [match_here] is a backtracking matcher for such
    sequences: quantifiers are greedy and give characters back when the
    rest of the pattern fails.  It returns what is left of the subject
    after the match. *)

Inductive quant : Type := One | Star | Plus.

Record atom : Type := Atom { cls : char -> bool; qnt : quant }.

Definition regex : Type := list atom.

Fixpoint match_star (p : char -> bool) (k : str -> option str) (s : str)
  : option str :=
  match s with
  | c :: s' =>
      if p c then
        match match_star p k s' with
        | Some r => Some r
        | None => k s
        end
      else k s
  | [] => k s
  end.

Fixpoint match_here (re : regex) : str -> option str :=
  match re with
  | [] => fun s => Some s
  | Atom p One :: re' =>
      fun s => match s with
               | c :: s' => if p c then match_here re' s' else None
               | [] => None
               end
  | Atom p Star :: re' => match_star p (match_here re')
  | Atom p Plus :: re' =>
      fun s => match s with
               | c :: s' => if p c then match_star p (match_here re') s'
                            else None
               | [] => None
               end
  end.

(** Leftmost match: the text before it and the text after it. *)
Fixpoint re_search (re : regex) (s : str) : option (str * str) :=
  match match_here re s with
  | Some after => Some ([], after)
  | None =>
      match s with
      | [] => None
      | c :: s' =>
          match re_search re s' with
          | Some (before, after) => Some (c :: before, after)
          | None => None
          end
      end
  end.

(** [r'^#+\s*'] without its anchor, and [r"\n\s*\n"]. *)
Definition HEADER_RE : regex := [Atom is_hash Plus; Atom isspace Star].
Definition PARAGRAPH_RE : regex :=
  [Atom is_lf One; Atom isspace Star; Atom is_lf One].

(** [re.sub('^' + re, '', s)]: the anchor admits a match at the start of
    the subject only (no MULTILINE flag), so at most one match is
    replaced. *)
Definition re_sub_start (re : regex) (s : str) : str :=
  match match_here re s with
  | Some after => after
  | None => s
  end.

(** [re.split(re, s)] for a pattern without groups: the pieces between
    successive leftmost matches.  The search resumes where the previous
    match ended.  Both patterns consume at least one character; a match
    that consumes none ends the splitting here. *)
Equations re_split (re : regex) (s : str) : list str by wf (length s) lt :=
  re_split re s with re_search re s := {
    | Some (before, after) with lt_dec (length after) (length s) := {
        | left _ := before :: re_split re after
        | right _ := [s] }
    | None := [s] }.

(** ** The extractor *)

(** Python truthiness of an optional string: [None] and [''] are false. *)
Definition truthy (o : option str) : bool :=
  match o with
  | Some (_ :: _) => true
  | _ => false
  end.

(** [x or ''] *)
Definition or_empty (o : option str) : str :=
  match o with
  | Some s => s
  | None => []
  end.

(** First loop: the first line that, stripped, starts with '#'. *)
Fixpoint header_loop (lines : list str) : option str :=
  match lines with
  | [] => None
  | l :: ls =>
      let line := strip l in
      if startswith_hash line
      then Some (strip (re_sub_start HEADER_RE line))
      else header_loop ls
  end.

(** Second loop: the first line that is non-empty once stripped. *)
Fixpoint fallback_loop (lines : list str) : option str :=
  match lines with
  | [] => None
  | l :: ls =>
      match strip l with
      | [] => fallback_loop ls
      | line => Some line
      end
  end.

(** Third loop, over the paragraphs. *)
Fixpoint desc_loop (paragraphs : list str) : option str :=
  match paragraphs with
  | [] => None
  | p :: ps =>
      let p := strip p in
      match p with
      | [] => desc_loop ps
      | _ => if startswith_hash p then desc_loop ps
             else Some (strip (replace_lf p))
      end
  end.

Definition extract_title_and_description (text : str) : str * str :=
  let title := header_loop (splitlines text) in
  let title :=
    if negb (truthy title) then
      match fallback_loop (splitlines text) with
      | Some t => Some t
      | None => title
      end
    else title in
  let paragraphs := re_split PARAGRAPH_RE (strip text) in
  let desc := desc_loop paragraphs in
  (or_empty title, or_empty desc).

(** ** Paths

    A [pathlib.Path] is modelled by its components.  Paths compare the
    way CPython compares them on POSIX: component lists, lexicographically,
    each component a string compared code point by code point. *)

Definition path : Type := list str.

Fixpoint list_eqb {A : Type} (eqb : A -> A -> bool) (l1 l2 : list A) : bool :=
  match l1, l2 with
  | [], [] => true
  | x :: l1', y :: l2' => eqb x y && list_eqb eqb l1' l2'
  | _, _ => false
  end.

(** [l1 < l2] on Python sequences: the first position where the two differ
    decides; a proper prefix is smaller. *)
Fixpoint list_ltb {A : Type} (eqb ltb : A -> A -> bool) (l1 l2 : list A)
  : bool :=
  match l1, l2 with
  | [], [] => false
  | [], _ :: _ => true
  | _ :: _, [] => false
  | x :: l1', y :: l2' =>
      if eqb x y then list_ltb eqb ltb l1' l2' else ltb x y
  end.

Definition str_eqb : str -> str -> bool := list_eqb N.eqb.
Definition str_ltb : str -> str -> bool := list_ltb N.eqb N.ltb.
Definition path_eqb : path -> path -> bool := list_eqb str_eqb.
Definition path_ltb : path -> path -> bool := list_ltb str_eqb str_ltb.

(** [sorted(iterable)]: a stable sort that only uses [<]. *)
Fixpoint insert_sorted (x : path) (l : list path) : list path :=
  match l with
  | [] => [x]
  | y :: l' => if path_ltb y x then y :: insert_sorted x l' else x :: l
  end.

Definition sorted (l : list path) : list path :=
  fold_right insert_sorted [] l.

(** [p / name], [p.name], [str(p)] of a relative path *)
Definition path_join (p : path) (name : str) : path := p ++ [name].

Definition path_name (p : path) : str := last p [].

Fixpoint path_str (p : path) : str :=
  match p with
  | [] => py "."
  | [c] => c
  | c :: p' => c ++ [SLASH] ++ path_str p'
  end.

(** ** Exceptions, state and the file system *)

Inductive exn : Type :=
| UnicodeDecodeError
| PermissionError
| FileNotFoundError
| IsADirectoryError
| OSError
| ValueError.

Inductive result (A : Type) : Type :=
| Ok (a : A)
| Raise (e : exn).
Arguments Ok {A} a.
Arguments Raise {A} e.

(** One record of the output, the dict built in [scan_section]. *)
Record item : Type := Item {
  item_path : str;
  item_type : str;
  item_filename : str;
  item_title : str;
  item_description : str
}.

(** The object handed to [json.dumps]. *)
Record document : Type := Document {
  generated_at : str;
  items : list item
}.

(** A line on standard output: [f'Wrote {OUT_FILE} with {n} entries']. *)
Inductive printed : Type := Wrote (file : path) (entries : nat).

(** What a run changes: standard output and the files written. *)
Record world : Type := World {
  stdout : list printed;
  written : list (path * document)
}.

(** What a run observes.  [fs_glob d] lists everything below [d], relative
    to [d], in the order the operating system enumerates it;
    [fs_read_text] is [Path.read_text(encoding='utf-8')].  [fs_exists] and
    [fs_is_dir] are [Path.exists()] and [Path.is_dir()]: they answer
    [False] when there is nothing at the path and raise the error of the
    underlying [stat] otherwise (a directory on the way that cannot be
    searched, for one). *)
Record filesystem : Type := FileSystem {
  fs_exists : path -> result bool;
  fs_is_dir : path -> result bool;
  fs_glob : path -> list path;
  fs_read_text : path -> result str;
  fs_mkdir : path -> result unit;
  fs_write_text : path -> result unit
}.

Definition M (A : Type) : Type := world -> result A * world.

Definition ret {A : Type} (a : A) : M A := fun w => (Ok a, w).

Definition bind {A B : Type} (m : M A) (k : A -> M B) : M B :=
  fun w =>
    match m w with
    | (Ok a, w') => k a w'
    | (Raise e, w') => (Raise e, w')
    end.

Definition lift {A : Type} (r : result A) : M A := fun w => (r, w).

(** [try: m  except Exception: h] *)
Definition try_except {A : Type} (m : M A) (h : M A) : M A :=
  fun w =>
    match m w with
    | (Ok a, w') => (Ok a, w')
    | (Raise _, w') => h w'
    end.

Definition print (l : printed) : M unit :=
  fun w => (Ok tt, {| stdout := stdout w ++ [l]; written := written w |}).

Notation "x <- m ;; k" := (bind m (fun x => k))
  (at level 61, m at next level, right associativity).
Notation "m ;;; k" := (bind m (fun _ => k))
  (at level 61, right associativity).

(** [p.relative_to(root)]: [ValueError] unless [root] is a prefix of [p]. *)
Fixpoint relative_to (p root : path) {struct root} : result path :=
  match root, p with
  | [], _ => Ok p
  | r :: root', c :: p' =>
      if str_eqb r c then relative_to p' root' else Raise ValueError
  | _ :: _, [] => Raise ValueError
  end.

Section Script.

Variable fs : filesystem.

(** [Path(__file__).resolve().parents[1]] *)
Variable ROOT : path.

Definition GITHUB_DIR : path := path_join ROOT (py ".github").
Definition OUT_DIR : path := path_join ROOT (py "build").
Definition OUT_FILE : path := path_join OUT_DIR (py "agent_metadata.json").

(** A dict iterates in insertion order. *)
Definition SECTIONS : list (str * path) :=
  [ (py "prompts", path_join GITHUB_DIR (py "prompts"));
    (py "toolsets", path_join GITHUB_DIR (py "toolsets"));
    (py "chatmodes", path_join GITHUB_DIR (py "chatmodes")) ].

(** [path.glob('**/*')]: the paths below [d], as paths that extend [d]. *)
Definition glob_all (d : path) : list path :=
  map (fun rel => d ++ rel) (fs_glob fs d).

(** The body of the [for p in sorted(...)] loop, [items] being the list
    the loop appends to. *)
Fixpoint scan_loop (name : str) (ps : list path) (items : list item)
  : M (list item) :=
  match ps with
  | [] => ret items
  | p :: ps' =>
      is_dir <- lift (fs_is_dir fs p) ;;
      if (is_dir : bool) then scan_loop name ps' items
      else
        r <- try_except
               (text <- lift (fs_read_text fs p) ;; ret (Some text))
               (ret None) ;;
        match r with
        | None => scan_loop name ps' items
        | Some text =>
            let (title, desc) := extract_title_and_description text in
            rel <- lift (relative_to p ROOT) ;;
            scan_loop name ps'
              (items ++ [ {| item_path := path_str rel;
                             item_type := name;
                             item_filename := path_name p;
                             item_title := title;
                             item_description := desc |} ])
        end
  end.

Definition scan_section (name : str) (d : path) : M (list item) :=
  present <- lift (fs_exists fs d) ;;
  if negb present then ret []
  else scan_loop name (sorted (glob_all d)) [].

(** The [for name, path in SECTIONS.items()] loop of [main]. *)
Fixpoint sections_loop (sections : list (str * path)) (all_items : list item)
  : M (list item) :=
  match sections with
  | [] => ret all_items
  | (name, d) :: rest =>
      items <- scan_section name d ;;
      sections_loop rest (all_items ++ items)
  end.

(** [p.mkdir(parents=True, exist_ok=True)] and [p.write_text(json.dumps(doc))];
    a failure of either is an exception that nothing catches. *)
Definition mkdir (p : path) : M unit := lift (fs_mkdir fs p).

Definition write_text (p : path) (doc : document) : M unit :=
  fun w =>
    match fs_write_text fs p with
    | Ok _ => (Ok tt, {| stdout := stdout w;
                         written := written w ++ [(p, doc)] |})
    | Raise e => (Raise e, w)
    end.

(** [now] is [datetime.utcnow().isoformat()]. *)
Definition main (now : str) : M unit :=
  all_items <- sections_loop SECTIONS [] ;;
  mkdir OUT_DIR ;;;
  write_text OUT_FILE {| generated_at := now ++ py "Z"; items := all_items |} ;;;
  print (Wrote OUT_FILE (length all_items)).

End Script.

(** ** Reference notions used in the statements *)

Definition nonempty (s : str) : bool :=
  match s with
  | [] => false
  | _ :: _ => true
  end.

(** The lines of a text, each trimmed. *)
Definition stripped_lines (text : str) : list str :=
  map strip (splitlines text).

(** The first line that is not empty once trimmed. *)
Definition first_nonempty_line (text : str) : option str :=
  find nonempty (stripped_lines text).

(** The first line that, once trimmed, begins with a header marker. *)
Definition first_header_line (text : str) : option str :=
  find startswith_hash (stripped_lines text).

(** A line without its leading '#' characters and the whitespace that
    follows them. *)
Definition strip_markers (line : str) : str :=
  dropwhile isspace (dropwhile is_hash line).

(** [s.split('\n')] *)
Fixpoint split_lf (s : str) : list str :=
  match s with
  | [] => [[]]
  | c :: s' =>
      if is_lf c then [] :: split_lf s'
      else match split_lf s' with
           | l :: ls => (c :: l) :: ls
           | [] => [[c]]
           end
  end.

(** A blank line holds whitespace only. *)
Definition blank (l : str) : bool := forallb isspace l.

(** Maximal runs of lines that are not blank, each run joined back with
    newlines; [cur] is the run being read. *)
Fixpoint blocks (cur : option str) (lines : list str) : list str :=
  match lines with
  | [] => match cur with
          | Some p => [p]
          | None => []
          end
  | l :: ls =>
      if blank l then
        match cur with
        | Some p => p :: blocks None ls
        | None => blocks None ls
        end
      else
        blocks (Some match cur with
                     | Some p => p ++ LF :: l
                     | None => l
                     end) ls
  end.

(** The paragraphs of a text that is already trimmed. *)
Definition line_paragraphs (s : str) : list str := blocks None (split_lf s).

(** The paragraphs of a text: the trimmed text split at its blank lines,
    that is, its maximal runs of lines that are not blank. *)
Definition spec_paragraphs (text : str) : list str :=
  line_paragraphs (strip text).

(** The description as the specification words it: the first paragraph
    that does not begin (once trimmed) with a header marker, each newline
    replaced by a space, trimmed; empty when there is none. *)
Definition spec_description (text : str) : str :=
  match find (fun p => negb (startswith_hash (strip p))) (spec_paragraphs text)
  with
  | Some p => strip (replace_lf p)
  | None => []
  end.

(** ** Reference notions for the scan *)

(** [p <= q] in path order, that is, not [q < p]. *)
Definition path_le (p q : path) : Prop := path_ltb q p = false.

Definition is_ok {A : Type} (r : result A) : bool :=
  match r with
  | Ok _ => true
  | Raise _ => false
  end.

(** A regular file ([is_dir()] answers [False]), one whose text can be
    read, one whose read fails. *)
Definition regular (fs : filesystem) (p : path) : bool :=
  match fs_is_dir fs p with
  | Ok false => true
  | _ => false
  end.

Definition readable (fs : filesystem) (p : path) : bool :=
  regular fs p && is_ok (fs_read_text fs p).

Definition unreadable (fs : filesystem) (p : path) : bool :=
  regular fs p && negb (is_ok (fs_read_text fs p)).

(** The record of the readable file [p] in the section [name]. *)
Definition item_of (fs : filesystem) (ROOT : path) (name : str) (p : path)
  : item :=
  let text := match fs_read_text fs p with
              | Ok t => t
              | Raise _ => []
              end in
  {| item_path := path_str (skipn (length ROOT) p);
     item_type := name;
     item_filename := path_name p;
     item_title := fst (extract_title_and_description text);
     item_description := snd (extract_title_and_description text) |}.

(** The readable files below [d], in sorted path order, and their
    records. *)
Definition section_files (fs : filesystem) (d : path) : list path :=
  match fs_exists fs d with
  | Ok true => filter (readable fs) (sorted (glob_all fs d))
  | _ => []
  end.

Definition section_items (fs : filesystem) (ROOT : path) (name : str)
  (d : path) : list item :=
  map (item_of fs ROOT name) (section_files fs d).

(** The records of a run: those of the three sections, in the order the
    sections are declared. *)
Definition all_items (fs : filesystem) (ROOT : path) : list item :=
  section_items fs ROOT (py "prompts")
    (path_join (GITHUB_DIR ROOT) (py "prompts")) ++
  section_items fs ROOT (py "toolsets")
    (path_join (GITHUB_DIR ROOT) (py "toolsets")) ++
  section_items fs ROOT (py "chatmodes")
    (path_join (GITHUB_DIR ROOT) (py "chatmodes")).

(** Two observations of one directory tree: the same directories, files
    and contents, enumerated by the operating system in any two orders. *)
Definition same_tree (fs1 fs2 : filesystem) : Prop :=
  (forall p, fs_exists fs1 p = fs_exists fs2 p) /\
  (forall p, fs_is_dir fs1 p = fs_is_dir fs2 p) /\
  (forall p, fs_read_text fs1 p = fs_read_text fs2 p) /\
  (forall d, Permutation (fs_glob fs1 d) (fs_glob fs2 d)).

(** [is_dir()] answers for every path of the listing of [d]. *)
Definition listing_inspectable (fs : filesystem) (d : path) : Prop :=
  forall p, In p (glob_all fs d) -> is_ok (fs_is_dir fs p) = true.

(** [exists()] answers for the three section directories and [is_dir()]
    for everything listed below them: no [stat] of the scan fails. *)
Definition inspectable (fs : filesystem) (ROOT : path) : Prop :=
  forall name d, In (name, d) (SECTIONS ROOT) ->
                 is_ok (fs_exists fs d) = true /\ listing_inspectable fs d.

(** The output directory can be made and the output file written. *)
Definition writable (fs : filesystem) (ROOT : path) : Prop :=
  fs_mkdir fs (OUT_DIR ROOT) = Ok tt /\
  fs_write_text fs (OUT_FILE ROOT) = Ok tt.

(** The state after a run that wrote [all_items] at time [now]. *)
Definition after_run (ROOT : path) (now : str) (all_items : list item)
  (w : world) : world :=
  {| stdout := stdout w ++ [Wrote (OUT_FILE ROOT) (length all_items)];
     written := written w ++
       [(OUT_FILE ROOT, {| generated_at := now ++ py "Z";
                           items := all_items |})] |}.

(** ** Auxiliary notions for the proofs *)

(** Whitespace up to the first non-blank character holds a newline. *)
Fixpoint lead_lf (s : str) : bool :=
  match s with
  | [] => false
  | c :: s' => if is_lf c then true else if isspace c then lead_lf s' else false
  end.

(** The last atom of the separator pattern, as a matcher. *)
Definition match_lf (s : str) : option str :=
  match s with
  | c :: s' => if is_lf c then Some s' else None
  | [] => None
  end.

(** What [re.split] is given, and what is left after each separator: a
    text that is not empty, does not end with whitespace and does not
    start with a blank line. *)
Definition trimmed_rest (s : str) : Prop :=
  s <> [] /\ rstrip s = s /\ lead_lf s = false.

(** Lines put back together, a newline between two lines. *)
Fixpoint join_lf (l : str) (ls : list str) : str :=
  match ls with
  | [] => l
  | l' :: ls' => l ++ LF :: join_lf l' ls'
  end.

(** A line holds no newline. *)
Definition no_lf (l : str) : Prop := forallb (fun c => negb (is_lf c)) l = true.

(** Lines as [split_lf] gives them for a trimmed text: no newline in a
    line, and a last line that is not blank. *)
Definition lines_ok (l : str) (ls : list str) : Prop :=
  Forall no_lf (l :: ls) /\ blank (last ls l) = false.

(** The splitting on the separator pattern agrees with the runs of lines,
    for texts of fewer than [n] lines after the first. *)
Definition lines_split_spec (n : nat) : Prop :=
  forall l ls, (length ls < n)%nat -> lines_ok l ls -> blank l = false ->
               re_split PARAGRAPH_RE (join_lf l ls) = blocks None (l :: ls).

(** [p] lies below [ROOT]. *)
Definition under (ROOT p : path) : Prop := exists rel, p = ROOT ++ rel.

(** ** Two example trees

    One repository seen twice: [.github/prompts] holds [a.md], [b.md] and
    a directory [sub] with an undecodable [c.bin]; [.github/toolsets] is
    absent; [.github/chatmodes] is empty.  The two observations enumerate
    [.github/prompts] in different orders. *)

Definition ex_root : path := [py "repo"].

Definition ex_prompts : path := ex_root ++ [py ".github"; py "prompts"].

Definition ex_chatmodes : path := ex_root ++ [py ".github"; py "chatmodes"].

Definition ex_fs (listing : list path) : filesystem :=
  {| fs_exists :=
       fun p => Ok (path_eqb p ex_prompts || path_eqb p ex_chatmodes);
     fs_is_dir := fun p => Ok (path_eqb p (ex_prompts ++ [py "sub"]));
     fs_glob := fun d => if path_eqb d ex_prompts then listing else [];
     fs_read_text := fun p =>
       if path_eqb p (ex_prompts ++ [py "a.md"])
       then Ok (py "# A" ++ [LF; LF] ++ py "alpha")
       else if path_eqb p (ex_prompts ++ [py "b.md"])
       then Ok (py "beta")
       else if path_eqb p (ex_prompts ++ [py "sub"; py "c.bin"])
       then Raise UnicodeDecodeError
       else Raise FileNotFoundError;
     fs_mkdir := fun _ => Ok tt;
     fs_write_text := fun _ => Ok tt |}.

Definition ex_fs1 : filesystem :=
  ex_fs [[py "b.md"]; [py "sub"]; [py "a.md"]; [py "sub"; py "c.bin"]].

Definition ex_fs2 : filesystem :=
  ex_fs [[py "sub"; py "c.bin"]; [py "a.md"]; [py "sub"]; [py "b.md"]].

Definition ex_world : world := {| stdout := []; written := [] |}.

(** ** Notions for the further properties *)

(** [s] is a contiguous piece of [t]. *)
Definition infix (s t : str) : Prop := exists a b, t = a ++ s ++ b.

(** The line boundaries are [map rstrip]-equal, up to one more blank line
    at the end of the first list. *)
Definition same_lines (L' L : list str) : Prop :=
  map rstrip L' = map rstrip L \/ map rstrip L' = map rstrip L ++ [[]].

(** The lines that count for the title. *)
Definition title_lines (text : str) : list str :=
  filter nonempty (stripped_lines text).

(** What every record of a run satisfies: its type is a section name, its
    path lies below [.github/<type>] and ends with its file name. *)
Definition well_formed_item (it : item) : Prop :=
  In (item_type it) [py "prompts"; py "toolsets"; py "chatmodes"]
  /\ (exists rest, item_path it = py ".github/" ++ item_type it ++ rest)
  /\ (exists pre, item_path it = pre ++ item_filename it).

(** Variations of the first example tree: every file holds whitespace
    only; the output file cannot be written; the output directory cannot
    be made; a file cannot be inspected; no directory is there. *)
Definition ex_fs_blank : filesystem :=
  {| fs_exists := fs_exists ex_fs1;
     fs_is_dir := fs_is_dir ex_fs1;
     fs_glob := fs_glob ex_fs1;
     fs_read_text := fun _ => Ok [SPACE; LF];
     fs_mkdir := fs_mkdir ex_fs1;
     fs_write_text := fs_write_text ex_fs1 |}.

Definition ex_fs_readonly : filesystem :=
  {| fs_exists := fs_exists ex_fs1;
     fs_is_dir := fs_is_dir ex_fs1;
     fs_glob := fs_glob ex_fs1;
     fs_read_text := fs_read_text ex_fs1;
     fs_mkdir := fs_mkdir ex_fs1;
     fs_write_text := fun _ => Raise PermissionError |}.

Definition ex_fs_nodir : filesystem :=
  {| fs_exists := fs_exists ex_fs1;
     fs_is_dir := fs_is_dir ex_fs1;
     fs_glob := fs_glob ex_fs1;
     fs_read_text := fs_read_text ex_fs1;
     fs_mkdir := fun _ => Raise PermissionError;
     fs_write_text := fs_write_text ex_fs1 |}.

(** The file [sub/c.bin] lies in a directory that can be listed but not
    searched: neither [is_dir()] nor [read_text()] gets at it. *)
Definition ex_fs_locked : filesystem :=
  {| fs_exists := fs_exists ex_fs1;
     fs_is_dir := fun p =>
       if path_eqb p (ex_prompts ++ [py "sub"; py "c.bin"])
       then Raise PermissionError
       else fs_is_dir ex_fs1 p;
     fs_glob := fs_glob ex_fs1;
     fs_read_text := fun p =>
       if path_eqb p (ex_prompts ++ [py "sub"; py "c.bin"])
       then Raise PermissionError
       else fs_read_text ex_fs1 p;
     fs_mkdir := fs_mkdir ex_fs1;
     fs_write_text := fs_write_text ex_fs1 |}.

Definition ex_fs_bare : filesystem :=
  {| fs_exists := fun _ => Ok false;
     fs_is_dir := fs_is_dir ex_fs1;
     fs_glob := fs_glob ex_fs1;
     fs_read_text := fs_read_text ex_fs1;
     fs_mkdir := fs_mkdir ex_fs1;
     fs_write_text := fs_write_text ex_fs1 |}.

(** No component of the path holds a '/'. *)
Definition slash_free (q : path) : Prop := forall c, In c q -> ~ In SLASH c.

(** A listing as a file system gives it: no entry twice, no '/' inside a
    name. *)
Definition clean_listing (fs : filesystem) : Prop :=
  forall d, NoDup (fs_glob fs d)
            /\ forall rel, In rel (fs_glob fs d) -> slash_free rel.

(** The path of a file, relative to the root, as the records spell it. *)
Definition relative_str (ROOT p : path) : str :=
  path_str (skipn (length ROOT) p).

(** * Properties *)

Arguments isspace : simpl never.
Arguments is_linebreak : simpl never.
Arguments is_hash : simpl never.
Arguments is_lf : simpl never.
Arguments replace_lf : simpl never.

(** ** Character classes *)

Lemma is_lf_eq c : is_lf c = true <-> c = LF.
Proof. unfold is_lf. apply N.eqb_eq. Qed.

Lemma is_hash_eq c : is_hash c = true <-> c = HASH.
Proof. unfold is_hash. apply N.eqb_eq. Qed.

Lemma is_lf_isspace c : is_lf c = true -> isspace c = true.
Proof. intros H. apply is_lf_eq in H. subst c. reflexivity. Qed.

Lemma is_hash_not_space c : is_hash c = true -> isspace c = false.
Proof. intros H. apply is_hash_eq in H. subst c. reflexivity. Qed.

Lemma is_linebreak_isspace c : is_linebreak c = true -> isspace c = true.
Proof.
  unfold is_linebreak, isspace. intros H.
  repeat rewrite orb_true_iff in *. repeat rewrite andb_true_iff in *.
  repeat rewrite N.leb_le in *. repeat rewrite N.eqb_eq in *.
  assert (Hc : (9 <= c /\ c <= 13) \/ (28 <= c /\ c <= 32)
               \/ c = 133 \/ c = 8232 \/ c = 8233) by lia.
  clear H. intuition.
Qed.

Lemma is_linebreak_LF : is_linebreak LF = true.
Proof. reflexivity. Qed.

(** ** [dropwhile] *)

Lemma dropwhile_nil_iff p s : dropwhile p s = [] <-> forallb p s = true.
Proof.
  induction s as [|c s IH]; simpl; [tauto|].
  destruct (p c); simpl; [exact IH|]. split; discriminate.
Qed.

Lemma dropwhile_head p s c r : dropwhile p s = c :: r -> p c = false.
Proof.
  induction s as [|x s IH]; simpl; [discriminate|].
  destruct (p x) eqn:E; [exact IH|]. intros H. injection H as -> _. exact E.
Qed.

Lemma dropwhile_idem p s : dropwhile p (dropwhile p s) = dropwhile p s.
Proof.
  destruct (dropwhile p s) as [|c r] eqn:E; [reflexivity|].
  simpl. now rewrite (dropwhile_head _ _ _ _ E).
Qed.

Lemma dropwhile_split p s :
  exists pre, s = pre ++ dropwhile p s /\ forallb p pre = true.
Proof.
  induction s as [|c s (pre & E & F)]; simpl.
  - now exists [].
  - destruct (p c) eqn:Hc.
    + exists (c :: pre). simpl. rewrite Hc, F. now rewrite <- E.
    + now exists [].
Qed.

Lemma dropwhile_In p s c : In c (dropwhile p s) -> In c s.
Proof.
  destruct (dropwhile_split p s) as (pre & E & _). intros H.
  rewrite E. apply in_or_app. now right.
Qed.

Lemma dropwhile_app_last p a c :
  dropwhile p (a ++ [c]) =
  match dropwhile p a with
  | [] => if p c then [] else [c]
  | d => d ++ [c]
  end.
Proof.
  induction a as [|x a IH]; simpl; [reflexivity|].
  destruct (p x); [exact IH|reflexivity].
Qed.

Lemma dropwhile_map p (f : char -> char) s :
  (forall c, p (f c) = p c) ->
  dropwhile p (map f s) = map f (dropwhile p s).
Proof.
  intros Hf. induction s as [|c s IH]; simpl; [reflexivity|].
  rewrite Hf. destruct (p c); [exact IH|reflexivity].
Qed.

(** ** [strip] *)

Lemma rstrip_cons c s :
  rstrip (c :: s) =
  match rstrip s with
  | [] => if isspace c then [] else [c]
  | r => c :: r
  end.
Proof.
  unfold rstrip. simpl rev. rewrite dropwhile_app_last.
  destruct (dropwhile isspace (rev s)) as [|d l]; simpl.
  - now destruct (isspace c).
  - rewrite rev_app_distr. simpl.
    destruct (rev l ++ [d]) as [|e r] eqn:E; [|reflexivity].
    now apply app_eq_nil in E.
Qed.

Lemma rstrip_nil : rstrip [] = [].
Proof. reflexivity. Qed.

Lemma rstrip_cons_nonspace c s :
  isspace c = false -> rstrip (c :: s) = c :: rstrip s.
Proof.
  intros H. rewrite rstrip_cons, H. now destruct (rstrip s).
Qed.

Lemma rstrip_idem s : rstrip (rstrip s) = rstrip s.
Proof.
  induction s as [|c s IH]; [reflexivity|].
  rewrite rstrip_cons. destruct (rstrip s) as [|d r] eqn:E.
  - destruct (isspace c) eqn:Hc; [reflexivity|].
    now rewrite rstrip_cons, rstrip_nil, Hc.
  - now rewrite rstrip_cons, IH.
Qed.

Lemma rstrip_nil_iff s : rstrip s = [] <-> forallb isspace s = true.
Proof.
  induction s as [|c s IH]; [simpl; tauto|].
  rewrite rstrip_cons. simpl. rewrite andb_true_iff, <- IH.
  destruct (rstrip s); destruct (isspace c); intuition discriminate.
Qed.

Lemma rstrip_In s c : In c (rstrip s) -> In c s.
Proof.
  revert c. induction s as [|x s IH]; intros c; [now rewrite rstrip_nil|].
  rewrite rstrip_cons. destruct (rstrip s) as [|d r].
  - destruct (isspace x); simpl; tauto.
  - simpl. intros [H|H]; [now left|]. right. apply IH. exact H.
Qed.

Lemma rstrip_fix_tail c s : rstrip (c :: s) = c :: s -> rstrip s = s.
Proof.
  rewrite rstrip_cons. destruct (rstrip s) as [|d r] eqn:E.
  - destruct (isspace c); [discriminate|]. intros H. now injection H.
  - intros H. now injection H.
Qed.

Lemma rstrip_fix_suffix a b : rstrip (a ++ b) = a ++ b -> rstrip b = b.
Proof.
  induction a as [|c a IH]; simpl; [tauto|].
  intros H. apply IH. eapply rstrip_fix_tail. exact H.
Qed.

Lemma lstrip_rstrip s : lstrip (rstrip s) = rstrip (lstrip s).
Proof.
  unfold lstrip. induction s as [|c s IH]; [reflexivity|].
  simpl dropwhile. destruct (isspace c) eqn:Hc.
  - rewrite rstrip_cons, Hc. destruct (rstrip s) as [|d r] eqn:E.
    + now rewrite <- IH.
    + simpl dropwhile. now rewrite Hc.
  - rewrite rstrip_cons_nonspace by exact Hc. simpl. now rewrite Hc.
Qed.

Lemma strip_idem s : strip (strip s) = strip s.
Proof.
  unfold strip. rewrite lstrip_rstrip. unfold lstrip.
  now rewrite dropwhile_idem, rstrip_idem.
Qed.

Lemma strip_nil_iff s : strip s = [] <-> forallb isspace s = true.
Proof.
  unfold strip, lstrip. rewrite rstrip_nil_iff. split; intros H.
  - apply dropwhile_nil_iff.
    destruct (dropwhile isspace s) as [|c r] eqn:E; [reflexivity|].
    apply dropwhile_head in E. simpl in H. now rewrite E in H.
  - apply dropwhile_nil_iff in H. now rewrite H.
Qed.

Lemma strip_head s c r : strip s = c :: r -> isspace c = false.
Proof.
  unfold strip, lstrip. destruct (dropwhile isspace s) as [|d l] eqn:E.
  - discriminate.
  - pose proof (dropwhile_head _ _ _ _ E) as Hd.
    rewrite rstrip_cons_nonspace by exact Hd. intros H. now injection H as <- _.
Qed.

Lemma strip_In s c : In c (strip s) -> In c s.
Proof.
  unfold strip, lstrip. intros H.
  eapply dropwhile_In, rstrip_In, H.
Qed.

(** A string that starts and ends with something else than whitespace is
    its own trimmed form. *)
Lemma strip_fixed c s :
  isspace c = false -> rstrip (c :: s) = c :: s -> strip (c :: s) = c :: s.
Proof.
  intros Hc Hr. unfold strip, lstrip. simpl. now rewrite Hc.
Qed.

Lemma strip_rstrip_fixed s : strip s = s -> rstrip s = s.
Proof.
  intros H. rewrite <- H at 1. unfold strip. rewrite rstrip_idem. exact H.
Qed.

Lemma rstrip_map (f : char -> char) s :
  (forall c, isspace (f c) = isspace c) ->
  rstrip (map f s) = map f (rstrip s).
Proof.
  intros Hf. unfold rstrip.
  now rewrite <- map_rev, dropwhile_map, map_rev.
Qed.

Lemma strip_map (f : char -> char) s :
  (forall c, isspace (f c) = isspace c) ->
  strip (map f s) = map f (strip s).
Proof.
  intros Hf. unfold strip, lstrip.
  now rewrite dropwhile_map, rstrip_map.
Qed.

Lemma replace_lf_space c :
  isspace (if is_lf c then SPACE else c) = isspace c.
Proof.
  destruct (is_lf c) eqn:E; [|reflexivity].
  now rewrite (is_lf_isspace _ E).
Qed.

Lemma strip_replace_lf s : strip (replace_lf s) = replace_lf (strip s).
Proof. apply strip_map, replace_lf_space. Qed.

Lemma replace_lf_no_LF s : ~ In LF (replace_lf s).
Proof.
  unfold replace_lf. rewrite in_map_iff. intros (c & E & _).
  destruct (is_lf c) eqn:Hc; [discriminate|].
  subst c. discriminate.
Qed.

(** ** [splitlines] *)

Lemma str_ind2 (P : list N -> Prop) :
  P [] -> (forall c, P [c]) ->
  (forall c c' s, P s -> P (c' :: s) -> P (c :: c' :: s)) ->
  forall s : list N, P s.
Proof.
  intros H0 H1 H2 s.
  assert (H : P s /\ forall c, P (c :: s)).
  { induction s as [|x s [IHa IHb]]; split; auto. }
  apply H.
Qed.

Lemma splitlines_cons c s :
  splitlines (c :: s) =
  if is_linebreak c then
    [] :: match s with
          | c' :: s'' =>
              if (c =? CR) && (c' =? LF) then splitlines s'' else splitlines s
          | [] => []
          end
  else
    match splitlines s with
    | [] => [[c]]
    | l :: ls => (c :: l) :: ls
    end.
Proof. destruct s; reflexivity. Qed.

(** No line contains a line boundary. *)
Lemma splitlines_no_linebreak s l c :
  In l (splitlines s) -> In c l -> is_linebreak c = false.
Proof.
  revert l c. induction s as [|x|x x' s IHs IHxs] using str_ind2;
    intros l c Hl Hc.
  - destruct Hl.
  - rewrite splitlines_cons in Hl. destruct (is_linebreak x) eqn:Hx.
    + destruct Hl as [<-|[]]. destruct Hc.
    + simpl in Hl. destruct Hl as [<-|[]]. destruct Hc as [<-|[]]. exact Hx.
  - rewrite splitlines_cons in Hl. destruct (is_linebreak x) eqn:Hx.
    + destruct Hl as [<-|Hl]; [destruct Hc|].
      destruct ((x =? CR) && (x' =? LF)); eauto.
    + destruct (splitlines (x' :: s)) as [|l0 ls] eqn:E.
      * destruct Hl as [<-|[]]. destruct Hc as [<-|[]]. exact Hx.
      * destruct Hl as [<-|Hl].
        -- destruct Hc as [<-|Hc]; [exact Hx|].
           apply (IHxs l0); [now left|exact Hc].
        -- apply (IHxs l); [now right|exact Hc].
Qed.

(** Every character of a text is a line boundary or lies on a line. *)
Lemma splitlines_cover s c :
  In c s ->
  is_linebreak c = true \/ exists l, In l (splitlines s) /\ In c l.
Proof.
  revert c. induction s as [|x|x x' s IHs IHxs] using str_ind2; intros c Hc.
  - destruct Hc.
  - destruct Hc as [<-|[]]. rewrite splitlines_cons.
    destruct (is_linebreak x) eqn:Hx; [now left|].
    right. exists [x]. simpl. auto.
  - rewrite splitlines_cons. destruct (is_linebreak x) eqn:Hx.
    + destruct Hc as [<-|Hc]; [now left|].
      destruct ((x =? CR) && (x' =? LF)) eqn:Hcr.
      * destruct Hc as [<-|Hc].
        -- left. apply andb_true_iff in Hcr. destruct Hcr as [_ Hlf].
           apply N.eqb_eq in Hlf. now subst.
        -- destruct (IHs c Hc) as [H|(l & Hl & Hin)]; [now left|].
           right. exists l. split; [now right|exact Hin].
      * destruct (IHxs c Hc) as [H|(l & Hl & Hin)]; [now left|].
        right. exists l. split; [now right|exact Hin].
    + destruct Hc as [<-|Hc].
      * right. destruct (splitlines (x' :: s)) as [|l0 ls].
        -- exists [x]. simpl. auto.
        -- exists (x :: l0). simpl. auto.
      * destruct (IHxs c Hc) as [H|(l & Hl & Hin)]; [now left|].
        right. destruct (splitlines (x' :: s)) as [|l0 ls]; [destruct Hl|].
        destruct Hl as [<-|Hl].
        -- exists (x :: l0). simpl. auto.
        -- exists l. simpl. auto.
Qed.

(** ** The matcher on the two patterns *)

Lemma match_star_ext p k1 k2 s :
  (forall x, k1 x = k2 x) -> match_star p k1 s = match_star p k2 s.
Proof.
  intros Hk. induction s as [|c s IH]; simpl; [apply Hk|].
  rewrite IH, Hk. reflexivity.
Qed.

(** A greedy star followed by something that always succeeds takes the
    whole run. *)
Lemma match_star_total p (g : str -> str) s :
  match_star p (fun x => Some (g x)) s = Some (g (dropwhile p s)).
Proof.
  induction s as [|c s IH]; simpl; [reflexivity|].
  rewrite IH. now destruct (p c).
Qed.

Lemma re_sub_header line :
  startswith_hash line = true ->
  re_sub_start HEADER_RE line = strip_markers line.
Proof.
  destruct line as [|c s]; [discriminate|]. simpl. intros Hc.
  unfold re_sub_start, strip_markers. simpl. rewrite Hc.
  rewrite (match_star_ext is_hash _ (fun x => Some (dropwhile isspace x)))
    by (intros x; apply (match_star_total isspace (fun y => y))).
  now rewrite match_star_total.
Qed.

(** The greedy [\s*] before the closing newline of the separator: it stops
    at the last newline of the whitespace run. *)
Lemma match_star_lf_some s a :
  match_star isspace match_lf s = Some a ->
  lead_lf a = false /\
  exists w, s = w ++ LF :: a /\ forallb isspace w = true.
Proof.
  revert a. induction s as [|c s IH]; intros a; simpl; [discriminate|].
  assert (Hk : (if is_lf c then Some s else None) = Some a ->
               lead_lf s = false ->
               lead_lf a = false /\
               exists w, c :: s = w ++ LF :: a /\ forallb isspace w = true).
  { destruct (is_lf c) eqn:Hc; [|discriminate].
    intros H Hs. injection H as <-. split; [exact Hs|].
    exists []. apply is_lf_eq in Hc. now subst c. }
  destruct (isspace c) eqn:Hsp.
  - destruct (match_star isspace match_lf s) as [r|] eqn:E.
    + intros H. injection H as <-.
      destruct (IH r eq_refl) as (Hr & w & -> & Hw).
      split; [exact Hr|]. exists (c :: w). simpl. now rewrite Hsp, Hw.
    + intros H. apply Hk; [exact H|].
      clear Hk H. revert E. clear. induction s as [|x s IH]; simpl; [reflexivity|].
      destruct (isspace x) eqn:Hx.
      * destruct (match_star isspace match_lf s); [discriminate|].
        destruct (is_lf x); [discriminate|]. intros _. now apply IH.
      * destruct (is_lf x) eqn:Hl; [|reflexivity].
        now rewrite (is_lf_isspace _ Hl) in Hx.
  - destruct (is_lf c) eqn:Hl; [|discriminate].
    now rewrite (is_lf_isspace _ Hl) in Hsp.
Qed.

(** A match of the separator pattern is a newline, whitespace and a
    newline, and the whitespace that follows the match holds no newline. *)
Lemma match_paragraph_re s a :
  match_here PARAGRAPH_RE s = Some a ->
  lead_lf a = false /\
  exists w, s = LF :: w ++ LF :: a /\ forallb isspace w = true.
Proof.
  destruct s as [|c s]; simpl; [discriminate|].
  destruct (is_lf c) eqn:Hc; [|discriminate].
  intros H.
  rewrite (match_star_ext isspace _ match_lf) in H
    by (intros [|x l]; reflexivity).
  destruct (match_star_lf_some _ _ H) as (Ha & w & -> & Hw).
  split; [exact Ha|]. exists w. apply is_lf_eq in Hc. now subst c.
Qed.

Lemma re_search_some re s b a :
  re_search re s = Some (b, a) ->
  exists m, s = b ++ m /\ match_here re m = Some a.
Proof.
  revert b a. induction s as [|c s IH]; intros b a; simpl.
  - destruct (match_here re []) as [r|] eqn:E; [|discriminate].
    intros H. injection H as <- <-. now exists [].
  - destruct (match_here re (c :: s)) as [r|] eqn:E.
    + intros H. injection H as <- <-. now exists (c :: s).
    + destruct (re_search re s) as [[b' a']|]; [|discriminate].
      intros H. injection H as <- <-.
      destruct (IH b' a' eq_refl) as (m & -> & Hm). now exists m.
Qed.

Lemma re_split_step re s :
  re_split re s =
  match re_search re s with
  | Some (b, a) =>
      if lt_dec (length a) (length s) then b :: re_split re a else [s]
  | None => [s]
  end.
Proof.
  rewrite re_split_equation_1.
  destruct (re_search re s) as [[b a]|]; [|reflexivity].
  simpl. destruct (lt_dec (length a) (length s)); reflexivity.
Qed.

Lemma lead_lf_app w x :
  forallb isspace w = true -> lead_lf (w ++ LF :: x) = true.
Proof.
  induction w as [|c w IH]; simpl; [reflexivity|].
  intros H. apply andb_true_iff in H. destruct H as [Hc Hw].
  rewrite Hc. destruct (is_lf c); auto.
Qed.

Lemma trimmed_rest_strip text : strip text <> [] -> trimmed_rest (strip text).
Proof.
  intros H. split; [exact H|]. split.
  - unfold strip. apply rstrip_idem.
  - destruct (strip text) as [|c r] eqn:E; [reflexivity|].
    simpl. apply strip_head in E. rewrite E.
    destruct (is_lf c) eqn:Hl; [|reflexivity].
    now rewrite (is_lf_isspace _ Hl) in E.
Qed.

(** No paragraph of a non-empty trimmed text is blank. *)
Lemma paragraphs_not_blank s :
  trimmed_rest s -> Forall (fun p => strip p <> []) (re_split PARAGRAPH_RE s).
Proof.
  remember (length s) as n eqn:Hn. revert s Hn.
  induction n as [n IH] using lt_wf_ind. intros s -> (Hne & Hr & Hl).
  assert (Hs : strip s <> []).
  { rewrite strip_nil_iff. rewrite <- rstrip_nil_iff, Hr. exact Hne. }
  rewrite re_split_step.
  destruct (re_search PARAGRAPH_RE s) as [[b a]|] eqn:E; [|now constructor].
  destruct (lt_dec (length a) (length s)) as [Hlt|_]; [|now constructor].
  destruct (re_search_some _ _ _ _ E) as (m & -> & Hm).
  destruct (match_paragraph_re _ _ Hm) as (Ha & w & -> & Hw).
  constructor.
  - rewrite strip_nil_iff. intros Hb.
    now rewrite (lead_lf_app _ _ Hb) in Hl.
  - apply (IH (length a) Hlt a eq_refl). split; [|split].
    + intros ->. apply rstrip_fix_suffix in Hr.
      replace (LF :: w ++ [LF]) with ((LF :: w) ++ [LF]) in Hr by reflexivity.
      apply rstrip_fix_suffix in Hr. discriminate.
    + apply rstrip_fix_suffix in Hr.
      replace (LF :: w ++ LF :: a) with ((LF :: w ++ [LF]) ++ a) in Hr
        by (simpl; now rewrite <- app_assoc).
      now apply rstrip_fix_suffix in Hr.
    + exact Ha.
Qed.

(** ** Paragraphs as runs of lines *)

Lemma split_lf_join s :
  exists l ls, split_lf s = l :: ls /\ s = join_lf l ls /\ Forall no_lf (l :: ls).
Proof.
  induction s as [|c s (l & ls & E & J & F)]; simpl.
  - exists [], []. repeat split. repeat constructor.
  - destruct (is_lf c) eqn:Hc.
    + exists [], (l :: ls). rewrite E. split; [reflexivity|]. split.
      * simpl. apply is_lf_eq in Hc. now subst c; rewrite <- J.
      * constructor; [reflexivity|exact F].
    + rewrite E. exists (c :: l), ls. split; [reflexivity|]. split.
      * destruct ls; simpl in *; now rewrite J.
      * inversion F as [|? ? Hl Hls]; subst. constructor; [|exact Hls].
        unfold no_lf in *. simpl. now rewrite Hc.
Qed.

Lemma match_star_lf_none s :
  match_star isspace match_lf s = None <-> lead_lf s = false.
Proof.
  induction s as [|c s IH]; simpl; [tauto|].
  destruct (is_lf c) eqn:Hl.
  - rewrite (is_lf_isspace _ Hl).
    destruct (match_star isspace match_lf s); split; discriminate.
  - destruct (isspace c); [|tauto].
    destruct (match_star isspace match_lf s); [|exact IH].
    split; [discriminate|]. intros H. apply IH in H. discriminate.
Qed.

Lemma lead_lf_line l x :
  no_lf l -> blank l = false -> lead_lf (l ++ x) = false.
Proof.
  unfold no_lf, blank. induction l as [|c l IH]; simpl; [discriminate|].
  destruct (is_lf c); [discriminate|]. simpl.
  destruct (isspace c); simpl; auto.
Qed.

Lemma lead_lf_last_line l : no_lf l -> lead_lf l = false.
Proof.
  unfold no_lf. induction l as [|c l IH]; simpl; [reflexivity|].
  destruct (is_lf c); [discriminate|]. simpl. destruct (isspace c); auto.
Qed.

(** Greedy whitespace over a blank line and its newline: the match goes on
    as far as a later newline allows. *)
Lemma match_star_blank_line l rest :
  blank l = true ->
  match_star isspace match_lf (l ++ LF :: rest) =
  Some match match_star isspace match_lf rest with
       | Some a => a
       | None => rest
       end.
Proof.
  unfold blank. induction l as [|c l IH]; simpl.
  - intros _. change (isspace LF) with true. cbv iota.
    change (is_lf LF) with true. cbv iota.
    now destruct (match_star isspace match_lf rest).
  - intros H. apply andb_true_iff in H. destruct H as [Hc Hl].
    now rewrite Hc, IH.
Qed.

Lemma match_paragraph_re_lf rest :
  match_here PARAGRAPH_RE (LF :: rest) = match_star isspace match_lf rest.
Proof.
  simpl. change (is_lf LF) with true. cbv iota.
  apply match_star_ext. now intros [|c s].
Qed.

Lemma match_paragraph_re_other c rest :
  is_lf c = false -> match_here PARAGRAPH_RE (c :: rest) = None.
Proof. simpl. now intros ->. Qed.

(** The search over one line and the newline that ends it. *)
Lemma re_search_line l rest :
  no_lf l ->
  re_search PARAGRAPH_RE (l ++ LF :: rest) =
  match match_star isspace match_lf rest with
  | Some a => Some (l, a)
  | None =>
      match re_search PARAGRAPH_RE rest with
      | Some (b, a) => Some (l ++ LF :: b, a)
      | None => None
      end
  end.
Proof.
  unfold no_lf. induction l as [|c l IH].
  - intros _. cbn [app re_search]. rewrite match_paragraph_re_lf.
    now destruct (match_star isspace match_lf rest).
  - intros H. simpl in H. apply andb_true_iff in H. destruct H as [Hc Hl].
    apply negb_true_iff in Hc.
    cbn [app re_search]. rewrite (match_paragraph_re_other _ _ Hc), (IH Hl).
    destruct (match_star isspace match_lf rest); [reflexivity|].
    now destruct (re_search PARAGRAPH_RE rest) as [[b a]|].
Qed.

Lemma re_search_last_line l : no_lf l -> re_search PARAGRAPH_RE l = None.
Proof.
  unfold no_lf. induction l as [|c l IH]; [reflexivity|].
  intros H. simpl in H. apply andb_true_iff in H. destruct H as [Hc Hl].
  apply negb_true_iff in Hc.
  cbn [re_search]. now rewrite (match_paragraph_re_other _ _ Hc), (IH Hl).
Qed.

Lemma re_search_paragraph_shorter s b a :
  re_search PARAGRAPH_RE s = Some (b, a) -> (length a < length s)%nat.
Proof.
  intros H. destruct (re_search_some _ _ _ _ H) as (m & -> & Hm).
  destruct (match_paragraph_re _ _ Hm) as (_ & w & -> & _).
  rewrite length_app. simpl. rewrite length_app. simpl. lia.
Qed.

(** On the separator pattern every match consumes something, so that
    [re_split] always takes its recursive step. *)
Lemma re_split_paragraphs s :
  re_split PARAGRAPH_RE s =
  match re_search PARAGRAPH_RE s with
  | Some (b, a) => b :: re_split PARAGRAPH_RE a
  | None => [s]
  end.
Proof.
  rewrite re_split_step.
  destruct (re_search PARAGRAPH_RE s) as [[b a]|] eqn:E; [|reflexivity].
  apply re_search_paragraph_shorter in E.
  now destruct (lt_dec (length a) (length s)).
Qed.

Lemma last_cons_default (x : str) r d1 d2 : last (x :: r) d1 = last (x :: r) d2.
Proof.
  revert x. induction r as [|y r IH]; intros x; [reflexivity|].
  cbn [last]. apply IH.
Qed.

Lemma lines_ok_tail l l' ls : lines_ok l (l' :: ls) -> lines_ok l' ls.
Proof.
  intros [F B]. split; [now inversion F|].
  destruct ls as [|x r]; [exact B|].
  rewrite (last_cons_default x r l' l). exact B.
Qed.

Lemma match_star_nonblank_line l ls :
  lines_ok l ls -> blank l = false ->
  match_star isspace match_lf (join_lf l ls) = None.
Proof.
  intros [F _] B. apply match_star_lf_none. inversion F; subst.
  destruct ls as [|l' ls]; simpl.
  - rewrite <- (app_nil_r l). now apply lead_lf_line.
  - now apply lead_lf_line.
Qed.

(** What [re.split] does with the text that follows a separator. *)
Lemma after_blank_lines n :
  lines_split_spec n ->
  forall ls l, (length ls < n)%nat -> lines_ok l ls ->
    re_split PARAGRAPH_RE
      match match_star isspace match_lf (join_lf l ls) with
      | Some a => a
      | None => join_lf l ls
      end = blocks None (l :: ls).
Proof.
  intros HF ls. induction ls as [|l' ls IH]; intros l Hn Hok.
  - destruct (blank l) eqn:B; [destruct Hok as [_ Hb]; simpl in Hb; congruence|].
    rewrite (match_star_nonblank_line _ _ Hok B). now apply HF.
  - destruct (blank l) eqn:B.
    + cbn [join_lf]. rewrite (match_star_blank_line _ _ B).
      rewrite IH; [|simpl in Hn; lia|now apply lines_ok_tail in Hok].
      cbn [blocks]. now rewrite B.
    + rewrite (match_star_nonblank_line _ _ Hok B). now apply HF.
Qed.

(** A run of lines that are not blank, read by [blocks] and by the
    leftmost search. *)
Lemma blocks_run n :
  lines_split_spec n ->
  forall ls l pre, (length ls <= n)%nat -> lines_ok l ls ->
    blocks (Some (pre ++ l)) ls =
    match re_search PARAGRAPH_RE (join_lf l ls) with
    | Some (b, a) => (pre ++ b) :: re_split PARAGRAPH_RE a
    | None => [pre ++ join_lf l ls]
    end.
Proof.
  intros HF ls. induction ls as [|l' ls IH]; intros l pre Hn Hok.
  - simpl. destruct Hok as [F _]. inversion F; subst.
    now rewrite re_search_last_line.
  - assert (Hl : no_lf l) by (destruct Hok as [F _]; now inversion F).
    pose proof (lines_ok_tail _ _ _ Hok) as Hok'.
    cbn [join_lf blocks]. rewrite (re_search_line _ _ Hl).
    destruct (blank l') eqn:B.
    + destruct ls as [|x r]; [destruct Hok as [_ Hb]; simpl in Hb; congruence|].
      cbn [join_lf]. rewrite (match_star_blank_line _ _ B).
      f_equal. symmetry. apply (after_blank_lines n HF).
      * simpl in Hn. lia.
      * now apply lines_ok_tail in Hok'.
    + rewrite (match_star_nonblank_line _ _ Hok' B).
      replace ((pre ++ l) ++ LF :: l') with ((pre ++ l ++ [LF]) ++ l')
        by (now rewrite <- !app_assoc).
      rewrite IH; [|simpl in Hn; lia|exact Hok'].
      destruct (re_search PARAGRAPH_RE (join_lf l' ls)) as [[b a]|];
        now rewrite <- !app_assoc.
Qed.

Lemma lines_split n : lines_split_spec n.
Proof.
  induction n as [n IH] using lt_wf_ind. intros l ls Hn Hok B.
  assert (HF : lines_split_spec (length ls)).
  { intros x r Hr. apply (IH (length ls) Hn). exact Hr. }
  rewrite re_split_paragraphs. cbn [blocks]. rewrite B.
  symmetry. exact (blocks_run (length ls) HF ls l [] (le_n _) Hok).
Qed.

Lemma join_lf_last l ls :
  ls <> [] -> exists pre, join_lf l ls = pre ++ LF :: last ls l.
Proof.
  revert l. induction ls as [|l' ls IH]; intros l H; [now destruct H|].
  destruct ls as [|x r].
  - now exists l.
  - destruct (IH l' ltac:(discriminate)) as (pre & E).
    exists (l ++ LF :: pre). cbn [join_lf] in *. rewrite E.
    rewrite <- app_assoc. change (last (l' :: x :: r) l) with (last (x :: r) l).
    now rewrite (last_cons_default x r l l').
Qed.

(** On a trimmed text, splitting on the separator pattern gives the runs
    of lines that are not blank. *)
Lemma re_split_line_paragraphs s :
  trimmed_rest s -> re_split PARAGRAPH_RE s = line_paragraphs s.
Proof.
  intros (Hne & Hr & Hl). unfold line_paragraphs.
  destruct (split_lf_join s) as (l & ls & -> & -> & F).
  assert (B : blank l = false).
  { destruct (blank l) eqn:B; [|reflexivity]. destruct ls as [|l' ls].
    - simpl in *. apply rstrip_nil_iff in B. congruence.
    - cbn [join_lf] in Hl. now rewrite (lead_lf_app _ _ B) in Hl. }
  apply (lines_split (S (length ls))); [lia| |exact B].
  split; [exact F|].
  destruct (blank (last ls l)) eqn:Bl; [|reflexivity].
  destruct ls as [|l' ls]; [simpl in Bl; congruence|].
  destruct (join_lf_last l (l' :: ls) ltac:(discriminate)) as (pre & E).
  rewrite E in Hr. pose proof (rstrip_fix_suffix _ _ Hr) as H1.
  apply rstrip_nil_iff in Bl.
  rewrite rstrip_cons, Bl in H1. discriminate.
Qed.

(** ** The three loops *)

Lemma header_loop_find lines :
  header_loop lines =
  option_map (fun h => strip (re_sub_start HEADER_RE h))
             (find startswith_hash (map strip lines)).
Proof.
  induction lines as [|l ls IH]; simpl; [reflexivity|].
  destruct (startswith_hash (strip l)); [reflexivity|exact IH].
Qed.

Lemma fallback_loop_find lines :
  fallback_loop lines = find nonempty (map strip lines).
Proof.
  induction lines as [|l ls IH]; simpl; [reflexivity|].
  destruct (strip l); [exact IH|reflexivity].
Qed.

Lemma find_stripped (f : str -> bool) lines h :
  find f (map strip lines) = Some h -> strip h = h.
Proof.
  intros H. apply find_some in H. destruct H as [H _].
  apply in_map_iff in H. destruct H as (l & <- & _). apply strip_idem.
Qed.

Lemma strip_markers_stripped h :
  strip h = h -> strip (strip_markers h) = strip_markers h.
Proof.
  intros Hh. unfold strip_markers.
  destruct (dropwhile_split is_hash h) as (p1 & E1 & _).
  destruct (dropwhile_split isspace (dropwhile is_hash h)) as (p2 & E2 & _).
  destruct (dropwhile isspace (dropwhile is_hash h)) as [|c r] eqn:E;
    [reflexivity|].
  apply strip_fixed; [now apply dropwhile_head in E|].
  apply strip_rstrip_fixed in Hh. rewrite E1, E2, app_assoc in Hh.
  now apply rstrip_fix_suffix in Hh.
Qed.

(** The title in terms of the two reference lines. *)
Lemma title_eq text :
  fst (extract_title_and_description text) =
  let t := option_map (fun h => strip (re_sub_start HEADER_RE h))
                      (first_header_line text) in
  or_empty (if negb (truthy t)
            then match first_nonempty_line text with
                 | Some x => Some x
                 | None => t
                 end
            else t).
Proof.
  unfold extract_title_and_description, first_header_line,
    first_nonempty_line, stripped_lines. simpl.
  now rewrite header_loop_find, fallback_loop_find.
Qed.

Lemma first_nonempty_is_header text line :
  first_nonempty_line text = Some line ->
  startswith_hash line = true ->
  first_header_line text = Some line.
Proof.
  unfold first_nonempty_line, first_header_line.
  induction (stripped_lines text) as [|l ls IH]; simpl; [discriminate|].
  destruct l as [|c r]; simpl; [exact IH|].
  intros H. injection H as <-. simpl. now intros ->.
Qed.

Lemma first_header_has_nonempty text h :
  first_header_line text = Some h ->
  exists t, first_nonempty_line text = Some t.
Proof.
  unfold first_nonempty_line, first_header_line.
  induction (stripped_lines text) as [|l ls IH]; simpl; [discriminate|].
  destruct l as [|c r]; simpl; [exact IH|]. intros _. now eexists.
Qed.

Lemma stripped_line_ok text x :
  In x (stripped_lines text) -> strip x = x /\ ~ In LF x.
Proof.
  unfold stripped_lines. rewrite in_map_iff. intros (l & <- & Hl). split.
  - apply strip_idem.
  - intros H. apply strip_In in H.
    pose proof (splitlines_no_linebreak _ _ _ Hl H) as Hb.
    now rewrite is_linebreak_LF in Hb.
Qed.

Lemma header_title_ok text h :
  In h (stripped_lines text) -> startswith_hash h = true ->
  strip (strip (re_sub_start HEADER_RE h)) = strip (re_sub_start HEADER_RE h)
  /\ ~ In LF (strip (re_sub_start HEADER_RE h)).
Proof.
  intros Hin Hh. split; [apply strip_idem|].
  rewrite re_sub_header by exact Hh. intros H.
  apply strip_In in H. unfold strip_markers in H.
  do 2 apply dropwhile_In in H.
  now apply (stripped_line_ok _ _ Hin).
Qed.

(** ** The description loop *)

Lemma desc_eq text :
  snd (extract_title_and_description text) =
  or_empty (desc_loop (re_split PARAGRAPH_RE (strip text))).
Proof. reflexivity. Qed.

Lemma desc_loop_find ps :
  Forall (fun p => strip p <> []) ps ->
  or_empty (desc_loop ps) =
  match find (fun p => negb (startswith_hash (strip p))) ps with
  | Some p => strip (replace_lf p)
  | None => []
  end.
Proof.
  induction 1 as [|p ps Hp _ IH]; simpl; [reflexivity|].
  destruct (strip p) as [|c r] eqn:E; [now destruct Hp|].
  destruct (startswith_hash (c :: r)); simpl; [exact IH|].
  now rewrite !strip_replace_lf, <- E, strip_idem.
Qed.

Lemma desc_loop_ok ps :
  let d := or_empty (desc_loop ps) in
  startswith_hash d = false /\ strip d = d /\ ~ In LF d.
Proof.
  induction ps as [|p ps IH]; simpl; [auto|].
  destruct (strip p) as [|c r] eqn:E; [exact IH|].
  destruct (startswith_hash (c :: r)) eqn:Hh; [exact IH|]. simpl.
  split; [|split].
  - rewrite strip_replace_lf, <- E, strip_idem, E. unfold replace_lf. simpl.
    destruct (is_lf c) eqn:Hl; [|exact Hh].
    apply strip_head in E. now rewrite (is_lf_isspace _ Hl) in E.
  - apply strip_idem.
  - intros H. apply strip_In in H. now apply replace_lf_no_LF in H.
Qed.

(** * Worked scenarios *)

Example scenario_header_and_paragraphs :
  extract_title_and_description
    (py "# Hello World" ++ [LF; LF] ++ py "This is a test." ++ [LF] ++
     py "Still same paragraph." ++ [LF; LF] ++ py "Second paragraph.") =
  (py "Hello World", py "This is a test. Still same paragraph.").
Proof. reflexivity. Qed.

Example scenario_single_line :
  extract_title_and_description (py "Just a line of text") =
  (py "Just a line of text", py "Just a line of text").
Proof. reflexivity. Qed.

Example scenario_indented_header_paragraph :
  extract_title_and_description
    (py "intro" ++ [LF; LF] ++ py "  # sub" ++ [LF; LF] ++ py "body") =
  (py "sub", py "intro").
Proof. reflexivity. Qed.

Example scenario_crlf_blank_line :
  extract_title_and_description
    (py "## T" ++ [CR; LF; CR; LF] ++ py "one" ++ [CR; LF] ++ py "two") =
  (py "T", py "one" ++ [CR; SPACE] ++ py "two").
Proof. reflexivity. Qed.

(** * The extractor: title *)

(** C1, as amended.  When the first line of the text that is non-empty
    once trimmed starts with '#', and it is not made of '#' characters
    alone (removing the leading '#' characters and the whitespace after
    them leaves something), the title is that line without its leading
    '#' characters and the whitespace that follows them. *)
Theorem title_of_leading_header_line text line :
  first_nonempty_line text = Some line ->
  startswith_hash line = true ->
  strip_markers line <> [] ->
  fst (extract_title_and_description text) = strip_markers line.
Proof.
  intros Hfirst Hhash Hrest.
  pose proof (find_stripped _ _ _ Hfirst) as Hs.
  rewrite title_eq, (first_nonempty_is_header _ _ Hfirst Hhash). simpl.
  rewrite re_sub_header, strip_markers_stripped by assumption.
  destruct (strip_markers line); [now destruct Hrest|reflexivity].
Qed.

Lemma title_of_leading_header_line_witness :
  fst (extract_title_and_description (py "  ## Hello World ")) =
  py "Hello World".
Proof.
  apply (title_of_leading_header_line (py "  ## Hello World ")
           (py "## Hello World")).
  - reflexivity.
  - reflexivity.
  - discriminate.
Defined.

(** C1 as stated fails: for the one-line text "#" the first non-empty line
    starts with '#', the line without its markers is empty, and the title
    is "#". *)
Lemma title_of_bare_marker_line :
  ~ (forall text line,
        first_nonempty_line text = Some line ->
        startswith_hash line = true ->
        fst (extract_title_and_description text) = strip_markers line).
Proof.
  intros H. specialize (H (py "#") (py "#") eq_refl eq_refl). discriminate H.
Qed.

(** C4.  When no line of the text, once trimmed, starts with a header
    marker, and some line is non-empty once trimmed, the title is the
    first such line, trimmed. *)
Theorem title_without_header text line :
  first_header_line text = None ->
  first_nonempty_line text = Some line ->
  fst (extract_title_and_description text) = line.
Proof.
  intros Hnone Hfirst. rewrite title_eq, Hnone, Hfirst. reflexivity.
Qed.

Lemma title_without_header_witness :
  fst (extract_title_and_description
         ([SPACE; LF] ++ py "  Just a line of text " ++ [LF] ++ py "more")) =
  py "Just a line of text".
Proof.
  apply title_without_header; reflexivity.
Defined.

(** C9, as amended.  When nothing is left of the first line that starts
    with '#' once its markers and the whitespace after them are removed,
    the title is the first line of the text that is non-empty once
    trimmed; the lines this holds for are those that, trimmed, are made
    of '#' characters only; such a title can hold '#' characters, as for
    the text "##". *)
Theorem title_falls_back_on_bare_markers :
  (forall text h,
      first_header_line text = Some h ->
      strip_markers h = [] ->
      first_nonempty_line text =
      Some (fst (extract_title_and_description text)))
  /\ (forall text h,
         first_header_line text = Some h ->
         (strip_markers h = [] <-> forallb is_hash h = true))
  /\ (first_header_line (py "##") = Some (py "##")
      /\ strip_markers (py "##") = []
      /\ fst (extract_title_and_description (py "##")) = py "##").
Proof.
  split; [|split; [|repeat split]].
  - intros text h Hh Hrest.
    destruct (first_header_has_nonempty _ _ Hh) as (t & Ht).
    assert (Hhash : startswith_hash h = true).
    { unfold first_header_line in Hh. now apply find_some in Hh. }
    rewrite title_eq, Hh, Ht. simpl.
    now rewrite re_sub_header, Hrest by exact Hhash.
  - intros text h Hh. unfold strip_markers. split; intros H.
    + apply dropwhile_nil_iff. apply dropwhile_nil_iff in H.
      assert (Hs : strip h = h).
      { unfold first_header_line in Hh. apply find_some in Hh.
        destruct Hh as [Hh _]. now apply stripped_line_ok in Hh. }
      apply strip_rstrip_fixed in Hs.
      destruct (dropwhile_split is_hash h) as (pre & E & _).
      rewrite E in Hs. apply rstrip_fix_suffix in Hs.
      apply rstrip_nil_iff in H. now rewrite Hs in H.
    + apply dropwhile_nil_iff in H. now rewrite H.
Qed.

Lemma title_falls_back_on_bare_markers_witness :
  first_nonempty_line (py "intro" ++ [LF] ++ py " ### " ++ [LF] ++ py "# T") =
  Some (fst (extract_title_and_description
               (py "intro" ++ [LF] ++ py " ### " ++ [LF] ++ py "# T"))).
Proof.
  apply (proj1 title_falls_back_on_bare_markers _ (py "###")); reflexivity.
Defined.

(** C9 as stated fails: the one line of the text "# #" is made of '#'
    characters and whitespace only and is the first line that starts with
    '#', yet a '#' is left of it without its markers; the title is that
    "#" and not the first non-empty line, "# #". *)
Lemma title_of_marker_and_space_line :
  ~ (forall text h,
        first_header_line text = Some h ->
        forallb (fun c => is_hash c || isspace c) h = true ->
        first_nonempty_line text =
        Some (fst (extract_title_and_description text))).
Proof.
  intros H. specialize (H (py "# #") (py "# #") eq_refl eq_refl).
  vm_compute in H. discriminate H.
Qed.

(** * The extractor: description *)

(** C2.  The description is the first paragraph of the trimmed text
    (the paragraphs being what blank lines separate) that does not begin
    with a header marker, its newlines replaced by one space each and
    trimmed; it is empty when there is no such paragraph; and it never
    starts with '#'.  The code splits with the pattern [\n\s*\n]; the
    reference splits the lines at the blank ones. *)
Theorem description_is_first_plain_paragraph text :
  snd (extract_title_and_description text) = spec_description text
  /\ startswith_hash (snd (extract_title_and_description text)) = false.
Proof.
  split; [|rewrite desc_eq; apply desc_loop_ok].
  rewrite desc_eq. unfold spec_description, spec_paragraphs.
  destruct (strip text) as [|c r] eqn:E.
  - reflexivity.
  - assert (Ht : trimmed_rest (c :: r))
      by (rewrite <- E; apply trimmed_rest_strip; now rewrite E).
    rewrite <- (re_split_line_paragraphs _ Ht).
    apply desc_loop_find, paragraphs_not_blank, Ht.
Qed.

(** * The extractor: empty input, totality, shape of the result *)

(** C5.  The empty text, and any text all of whose lines are empty once
    trimmed, give the pair of two empty strings. *)
Theorem extract_blank_text :
  extract_title_and_description [] = ([], [])
  /\ forall text,
      (forall l, In l (splitlines text) -> strip l = []) ->
      extract_title_and_description text = ([], []).
Proof.
  split; [reflexivity|]. intros text Hblank.
  assert (Hlines : forall x, In x (stripped_lines text) -> x = []).
  { unfold stripped_lines. intros x Hx. apply in_map_iff in Hx.
    destruct Hx as (l & <- & Hl). now apply Hblank. }
  assert (Htext : strip text = []).
  { apply strip_nil_iff, forallb_forall. intros c Hc.
    destruct (splitlines_cover _ _ Hc) as [Hb|(l & Hl & Hin)].
    - now apply is_linebreak_isspace.
    - pose proof (Hblank l Hl) as Hs. rewrite strip_nil_iff in Hs.
      rewrite forallb_forall in Hs. now apply Hs. }
  rewrite (surjective_pairing (extract_title_and_description text)).
  rewrite title_eq, desc_eq, Htext. f_equal.
  assert (Hh : first_header_line text = None).
  { unfold first_header_line.
    destruct (find startswith_hash (stripped_lines text)) as [h|] eqn:E;
      [|reflexivity].
    apply find_some in E. destruct E as [Hin Hs].
    rewrite (Hlines h Hin) in Hs. discriminate. }
  assert (Hn : first_nonempty_line text = None).
  { unfold first_nonempty_line.
    destruct (find nonempty (stripped_lines text)) as [h|] eqn:E;
      [|reflexivity].
    apply find_some in E. destruct E as [Hin Hs].
    rewrite (Hlines h Hin) in Hs. discriminate. }
  now rewrite Hh, Hn.
Qed.

Lemma extract_blank_text_witness :
  extract_title_and_description [SPACE; LF; CR; LF; 0x09; SPACE] = ([], []).
Proof.
  apply (proj2 extract_blank_text).
  intros l Hl. vm_compute in Hl.
  repeat (destruct Hl as [<-|Hl]; [reflexivity|]). destruct Hl.
Defined.

(** C8.  On every input text the extraction yields a pair of strings:
    no step of it can fail, and none of its loops runs away (every
    function it is built from is total). *)
Theorem extract_total text :
  exists title desc : str, extract_title_and_description text = (title, desc).
Proof.
  destruct (extract_title_and_description text) as [title desc].
  now exists title, desc.
Qed.

(** C10.  The title and the description hold no newline and are their own
    trimmed forms. *)
Theorem extract_result_trimmed text :
  let (title, desc) := extract_title_and_description text in
  (~ In LF title /\ ~ In LF desc) /\ strip title = title /\ strip desc = desc.
Proof.
  rewrite (surjective_pairing (extract_title_and_description text)).
  assert (Ht : strip (fst (extract_title_and_description text)) =
               fst (extract_title_and_description text)
               /\ ~ In LF (fst (extract_title_and_description text))).
  { rewrite title_eq.
    assert (Hfb : forall t,
               t = None \/ t = Some [] ->
               let r := or_empty match first_nonempty_line text with
                                 | Some x => Some x
                                 | None => t
                                 end in
               strip r = r /\ ~ In LF r).
    { intros t Hcase.
      destruct (first_nonempty_line text) as [x|] eqn:E; simpl.
      - apply find_some in E. eapply stripped_line_ok, E.
      - destruct Hcase as [->| ->]; simpl; auto. }
    destruct (first_header_line text) as [h|] eqn:E; simpl.
    - apply find_some in E. destruct E as [Hin Hh].
      destruct (header_title_ok _ _ Hin Hh) as [H1 H2].
      destruct (strip (re_sub_start HEADER_RE h)) as [|c r] eqn:Et; simpl.
      + apply Hfb. now right.
      + split; assumption.
    - apply Hfb. now left. }
  pose proof (desc_loop_ok (re_split PARAGRAPH_RE (strip text))) as Hd.
  rewrite <- desc_eq in Hd. simpl in Hd. tauto.
Qed.

(** * Path order and [sorted] *)

Section ListOrder.

Variable A : Type.
Variables eqb ltb : A -> A -> bool.
Hypothesis eqb_eq : forall x y, eqb x y = true <-> x = y.
Hypothesis ltb_irrefl : forall x, ltb x x = false.
Hypothesis ltb_trans :
  forall x y z, ltb x y = true -> ltb y z = true -> ltb x z = true.
Hypothesis ltb_total :
  forall x y, x = y \/ ltb x y = true \/ ltb y x = true.

Lemma eqb_refl x : eqb x x = true.
Proof. now apply eqb_eq. Qed.

Lemma list_eqb_eq l1 l2 : list_eqb eqb l1 l2 = true <-> l1 = l2.
Proof.
  revert l2. induction l1 as [|x l1 IH]; intros [|y l2]; simpl;
    try (split; [discriminate|discriminate]); [tauto|].
  rewrite andb_true_iff, eqb_eq, IH. split.
  - now intros [-> ->].
  - intros H. now injection H.
Qed.

Lemma list_ltb_irrefl l : list_ltb eqb ltb l l = false.
Proof.
  induction l as [|x l IH]; simpl; [reflexivity|].
  now rewrite eqb_refl.
Qed.

Lemma list_ltb_trans l1 l2 l3 :
  list_ltb eqb ltb l1 l2 = true -> list_ltb eqb ltb l2 l3 = true ->
  list_ltb eqb ltb l1 l3 = true.
Proof.
  revert l2 l3. induction l1 as [|x l1 IH]; intros [|y l2] [|z l3]; simpl;
    try discriminate; try reflexivity.
  destruct (eqb x y) eqn:Exy.
  - apply eqb_eq in Exy. subst y.
    destruct (eqb x z); [apply IH|auto].
  - destruct (eqb y z) eqn:Eyz.
    + apply eqb_eq in Eyz. subst z. now rewrite Exy.
    + intros Hxy Hyz. pose proof (ltb_trans _ _ _ Hxy Hyz) as Hxz.
      destruct (eqb x z) eqn:Exz; [|exact Hxz].
      apply eqb_eq in Exz. subst z. now rewrite ltb_irrefl in Hxz.
Qed.

Lemma list_ltb_total l1 l2 :
  l1 = l2 \/ list_ltb eqb ltb l1 l2 = true \/ list_ltb eqb ltb l2 l1 = true.
Proof.
  revert l2. induction l1 as [|x l1 IH]; intros [|y l2]; simpl; auto.
  destruct (eqb x y) eqn:Exy.
  - apply eqb_eq in Exy. subst y. rewrite eqb_refl.
    destruct (IH l2) as [->|H]; auto.
  - destruct (eqb y x) eqn:Eyx.
    + apply eqb_eq in Eyx. subst y. now rewrite eqb_refl in Exy.
    + destruct (ltb_total x y) as [->|H]; [|auto].
      now rewrite eqb_refl in Exy.
Qed.

End ListOrder.

Lemma str_eqb_eq s1 s2 : str_eqb s1 s2 = true <-> s1 = s2.
Proof. apply list_eqb_eq, N.eqb_eq. Qed.

Lemma str_ltb_irrefl s : str_ltb s s = false.
Proof. apply list_ltb_irrefl, N.eqb_eq. Qed.

Lemma str_ltb_trans s1 s2 s3 :
  str_ltb s1 s2 = true -> str_ltb s2 s3 = true -> str_ltb s1 s3 = true.
Proof.
  apply list_ltb_trans.
  - apply N.eqb_eq.
  - apply N.ltb_irrefl.
  - intros x y z. rewrite !N.ltb_lt. apply N.lt_trans.
Qed.

Lemma str_ltb_total s1 s2 :
  s1 = s2 \/ str_ltb s1 s2 = true \/ str_ltb s2 s1 = true.
Proof.
  apply list_ltb_total; [apply N.eqb_eq|].
  intros x y. rewrite !N.ltb_lt. lia.
Qed.

Lemma path_ltb_irrefl p : path_ltb p p = false.
Proof. apply list_ltb_irrefl, str_eqb_eq. Qed.

Lemma path_ltb_trans p q r :
  path_ltb p q = true -> path_ltb q r = true -> path_ltb p r = true.
Proof.
  apply list_ltb_trans;
    [apply str_eqb_eq|apply str_ltb_irrefl|apply str_ltb_trans].
Qed.

Lemma path_ltb_total p q :
  p = q \/ path_ltb p q = true \/ path_ltb q p = true.
Proof. apply list_ltb_total; [apply str_eqb_eq|apply str_ltb_total]. Qed.

Lemma path_le_antisym p q : path_le p q -> path_le q p -> p = q.
Proof.
  unfold path_le. intros H1 H2.
  destruct (path_ltb_total p q) as [H|[H|H]]; congruence.
Qed.

Lemma path_le_trans p q r : path_le p q -> path_le q r -> path_le p r.
Proof.
  unfold path_le. intros H1 H2.
  destruct (path_ltb r p) eqn:E; [|reflexivity].
  destruct (path_ltb_total p q) as [->|[H|H]]; [congruence| |congruence].
  now rewrite (path_ltb_trans _ _ _ E H) in H2.
Qed.

Lemma path_lt_le p q : path_ltb p q = true -> path_le p q.
Proof.
  unfold path_le. intros H. destruct (path_ltb q p) eqn:E; [|reflexivity].
  pose proof (path_ltb_trans _ _ _ H E) as Hpp.
  now rewrite path_ltb_irrefl in Hpp.
Qed.

Lemma insert_sorted_perm x l : Permutation (insert_sorted x l) (x :: l).
Proof.
  induction l as [|y l IH]; simpl; [reflexivity|].
  destruct (path_ltb y x); [|reflexivity].
  rewrite IH. apply perm_swap.
Qed.

Lemma sorted_perm l : Permutation (sorted l) l.
Proof.
  induction l as [|x l IH]; simpl; [reflexivity|].
  rewrite insert_sorted_perm. now constructor.
Qed.

Lemma insert_sorted_sorted x l :
  StronglySorted path_le l -> StronglySorted path_le (insert_sorted x l).
Proof.
  induction 1 as [|y l Hl IH Hy]; simpl; [repeat constructor|].
  destruct (path_ltb y x) eqn:E.
  - constructor; [exact IH|].
    rewrite Forall_forall in *. intros z Hz.
    apply (Permutation_in _ (insert_sorted_perm x l)) in Hz.
    destruct Hz as [<-|Hz]; [now apply path_lt_le|now apply Hy].
  - constructor; [now constructor|].
    constructor; [exact E|].
    rewrite Forall_forall in *. intros z Hz.
    apply path_le_trans with y; [exact E|now apply Hy].
Qed.

Lemma sorted_sorted l : StronglySorted path_le (sorted l).
Proof.
  induction l as [|x l IH]; simpl; [constructor|].
  now apply insert_sorted_sorted.
Qed.

(** A list has one sorted arrangement only. *)
Lemma sorted_unique l1 l2 :
  StronglySorted path_le l1 -> StronglySorted path_le l2 ->
  Permutation l1 l2 -> l1 = l2.
Proof.
  intros H1. revert l2. induction H1 as [|x l1 Hl1 IH Hx]; intros l2 H2 HP.
  - now apply Permutation_nil in HP.
  - destruct H2 as [|y l2 Hl2 Hy].
    + apply Permutation_sym, Permutation_nil in HP. discriminate.
    + assert (x = y) as <-.
      { rewrite Forall_forall in Hx, Hy.
        assert (Hxy : In x (y :: l2))
          by (apply (Permutation_in _ HP); now left).
        assert (Hyx : In y (x :: l1))
          by (apply (Permutation_in _ (Permutation_sym HP)); now left).
        destruct Hxy as [->|Hxy]; [reflexivity|].
        destruct Hyx as [->|Hyx]; [reflexivity|].
        apply path_le_antisym; auto. }
      f_equal. apply IH; [exact Hl2|].
      now apply Permutation_cons_inv in HP.
Qed.

(** [sorted] does not depend on the order of what it is given. *)
Lemma sorted_of_permutation l1 l2 :
  Permutation l1 l2 -> sorted l1 = sorted l2.
Proof.
  intros HP. apply sorted_unique; try apply sorted_sorted.
  rewrite !sorted_perm. exact HP.
Qed.

Lemma filter_sorted (f : path -> bool) l :
  StronglySorted path_le l -> StronglySorted path_le (filter f l).
Proof.
  induction 1 as [|x l Hl IH Hx]; simpl; [constructor|].
  destruct (f x); [|exact IH]. constructor; [exact IH|].
  rewrite Forall_forall in *. intros y Hy.
  apply filter_In in Hy. now apply Hx.
Qed.

Lemma filter_perm (f : path -> bool) l1 l2 :
  Permutation l1 l2 -> Permutation (filter f l1) (filter f l2).
Proof.
  induction 1 as [|x l1 l2 _ IH|x y l|l1 l2 l3 _ IH1 _ IH2]; simpl.
  - constructor.
  - destruct (f x); [now constructor|exact IH].
  - destruct (f x), (f y); try reflexivity. apply perm_swap.
  - now transitivity (filter f l2).
Qed.

(** * The scan *)

Lemma relative_to_under ROOT rel : relative_to (ROOT ++ rel) ROOT = Ok rel.
Proof.
  induction ROOT as [|r ROOT IH]; simpl; [reflexivity|].
  now rewrite (proj2 (str_eqb_eq r r) eq_refl).
Qed.

Lemma skipn_under (ROOT rel : path) : skipn (length ROOT) (ROOT ++ rel) = rel.
Proof. induction ROOT as [|r ROOT IH]; simpl; [reflexivity|exact IH]. Qed.

(** ** One step of the loop, by what [is_dir()] and [read_text()] answer *)

Lemma scan_loop_stat_error fs ROOT name p ps acc w e :
  fs_is_dir fs p = Raise e ->
  scan_loop fs ROOT name (p :: ps) acc w = (Raise e, w).
Proof. intros H. cbn [scan_loop]. unfold bind, lift. now rewrite H. Qed.

Lemma scan_loop_dir fs ROOT name p ps acc w :
  fs_is_dir fs p = Ok true ->
  scan_loop fs ROOT name (p :: ps) acc w = scan_loop fs ROOT name ps acc w.
Proof. intros H. cbn [scan_loop]. unfold bind, lift. now rewrite H. Qed.

Lemma scan_loop_read_error fs ROOT name p ps acc w e :
  fs_is_dir fs p = Ok false -> fs_read_text fs p = Raise e ->
  scan_loop fs ROOT name (p :: ps) acc w = scan_loop fs ROOT name ps acc w.
Proof.
  intros Hd Hr. cbn [scan_loop]. unfold bind, try_except, lift.
  now rewrite Hd, Hr.
Qed.

Lemma scan_loop_read_ok fs ROOT name p ps acc w text :
  fs_is_dir fs p = Ok false -> fs_read_text fs p = Ok text ->
  scan_loop fs ROOT name (p :: ps) acc w =
  match relative_to p ROOT with
  | Ok rel =>
      scan_loop fs ROOT name ps
        (acc ++ [ {| item_path := path_str rel;
                     item_type := name;
                     item_filename := path_name p;
                     item_title := fst (extract_title_and_description text);
                     item_description :=
                       snd (extract_title_and_description text) |} ]) w
  | Raise e => (Raise e, w)
  end.
Proof.
  intros Hd Hr. cbn [scan_loop]. unfold bind, try_except, lift, ret.
  rewrite Hd, Hr. destruct (extract_title_and_description text).
  now destruct (relative_to p ROOT).
Qed.

(** The loop leaves the state alone, whatever it returns. *)
Lemma scan_loop_state fs ROOT name ps :
  forall acc w, snd (scan_loop fs ROOT name ps acc w) = w.
Proof.
  induction ps as [|p ps IH]; intros acc w; [reflexivity|].
  destruct (fs_is_dir fs p) as [[|]|e] eqn:Hd.
  - rewrite (scan_loop_dir _ _ _ _ _ _ _ Hd). apply IH.
  - destruct (fs_read_text fs p) as [text|e] eqn:Hr.
    + rewrite (scan_loop_read_ok _ _ _ _ _ _ _ _ Hd Hr).
      destruct (relative_to p ROOT); [apply IH|reflexivity].
    + rewrite (scan_loop_read_error _ _ _ _ _ _ _ _ Hd Hr). apply IH.
  - now rewrite (scan_loop_stat_error _ _ _ _ _ _ _ _ Hd).
Qed.

(** What the loop computes over paths below the root: the records of the
    readable files, in order, unless an [is_dir()] raises. *)
Lemma scan_loop_outcome fs ROOT name ps :
  Forall (under ROOT) ps ->
  forall acc w,
    scan_loop fs ROOT name ps acc w =
    (Ok (acc ++ map (item_of fs ROOT name) (filter (readable fs) ps)), w)
    \/ exists e, scan_loop fs ROOT name ps acc w = (Raise e, w).
Proof.
  induction 1 as [|p ps (rel & ->) _ IH]; intros acc w.
  - left. simpl. unfold ret. now rewrite app_nil_r.
  - cbn [filter]. unfold readable at 1 3, regular.
    destruct (fs_is_dir fs (ROOT ++ rel)) as [[|]|e] eqn:Hd.
    + rewrite (scan_loop_dir _ _ _ _ _ _ _ Hd). apply IH.
    + destruct (fs_read_text fs (ROOT ++ rel)) as [text|e] eqn:Hr.
      * rewrite (scan_loop_read_ok _ _ _ _ _ _ _ _ Hd Hr), relative_to_under.
        cbn [andb is_ok map].
        replace (item_of fs ROOT name (ROOT ++ rel)) with
          {| item_path := path_str rel;
             item_type := name;
             item_filename := path_name (ROOT ++ rel);
             item_title := fst (extract_title_and_description text);
             item_description := snd (extract_title_and_description text) |}
          by (unfold item_of; now rewrite Hr, skipn_under).
        destruct (IH (acc ++ [ {| item_path := path_str rel;
             item_type := name;
             item_filename := path_name (ROOT ++ rel);
             item_title := fst (extract_title_and_description text);
             item_description := snd (extract_title_and_description text) |} ])
                     w) as [E|E].
        -- left. rewrite E. now rewrite <- app_assoc.
        -- now right.
      * rewrite (scan_loop_read_error _ _ _ _ _ _ _ _ Hd Hr). apply IH.
    + right. exists e. now apply scan_loop_stat_error.
Qed.

(** When every [is_dir()] answers, the loop returns. *)
Lemma scan_loop_eq fs ROOT name ps :
  Forall (under ROOT) ps ->
  (forall p, In p ps -> is_ok (fs_is_dir fs p) = true) ->
  forall acc w,
    scan_loop fs ROOT name ps acc w =
    (Ok (acc ++ map (item_of fs ROOT name) (filter (readable fs) ps)), w).
Proof.
  intros Hu Hd acc w.
  destruct (scan_loop_outcome fs ROOT name ps Hu acc w) as [E|(e & E)];
    [exact E|exfalso].
  revert acc w E.
  induction Hu as [|p ps (rel & ->) _ IH]; intros acc w E; [discriminate E|].
  assert (Hp : is_ok (fs_is_dir fs (ROOT ++ rel)) = true)
    by (apply Hd; now left).
  assert (Hps : forall q, In q ps -> is_ok (fs_is_dir fs q) = true)
    by (intros q Hq; apply Hd; now right).
  destruct (fs_is_dir fs (ROOT ++ rel)) as [[|]|e'] eqn:Hdp;
    [| |discriminate Hp].
  - rewrite (scan_loop_dir _ _ _ _ _ _ _ Hdp) in E. eapply IH; eassumption.
  - destruct (fs_read_text fs (ROOT ++ rel)) as [text|e'] eqn:Hr.
    + rewrite (scan_loop_read_ok _ _ _ _ _ _ _ _ Hdp Hr), relative_to_under
        in E.
      eapply IH; eassumption.
    + rewrite (scan_loop_read_error _ _ _ _ _ _ _ _ Hdp Hr) in E.
      eapply IH; eassumption.
Qed.

(** Two observations of one tree take the same steps. *)
Lemma scan_loop_same fs1 fs2 ROOT name ps :
  same_tree fs1 fs2 ->
  forall acc w1 w2,
    fst (scan_loop fs1 ROOT name ps acc w1) =
    fst (scan_loop fs2 ROOT name ps acc w2).
Proof.
  intros (_ & Hd & Hr & _).
  induction ps as [|p ps IH]; intros acc w1 w2; [reflexivity|].
  destruct (fs_is_dir fs1 p) as [[|]|e] eqn:Hd1;
    pose proof Hd1 as Hd2; rewrite Hd in Hd2.
  - rewrite (scan_loop_dir _ _ _ _ _ _ _ Hd1), (scan_loop_dir _ _ _ _ _ _ _ Hd2).
    apply IH.
  - destruct (fs_read_text fs1 p) as [text|e] eqn:Hr1;
      pose proof Hr1 as Hr2; rewrite Hr in Hr2.
    + rewrite (scan_loop_read_ok _ _ _ _ _ _ _ _ Hd1 Hr1),
              (scan_loop_read_ok _ _ _ _ _ _ _ _ Hd2 Hr2).
      destruct (relative_to p ROOT); [apply IH|reflexivity].
    + rewrite (scan_loop_read_error _ _ _ _ _ _ _ _ Hd1 Hr1),
              (scan_loop_read_error _ _ _ _ _ _ _ _ Hd2 Hr2).
      apply IH.
  - now rewrite (scan_loop_stat_error _ _ _ _ _ _ _ _ Hd1),
                (scan_loop_stat_error _ _ _ _ _ _ _ _ Hd2).
Qed.

(** ** A section *)

Lemma glob_all_under fs ROOT sub p :
  In p (sorted (glob_all fs (ROOT ++ sub))) -> under ROOT p.
Proof.
  intros H. apply (Permutation_in _ (sorted_perm _)) in H.
  unfold glob_all in H. apply in_map_iff in H. destruct H as (rel & <- & _).
  exists (sub ++ rel). now rewrite app_assoc.
Qed.

Lemma scan_section_state fs ROOT name d w :
  snd (scan_section fs ROOT name d w) = w.
Proof.
  unfold scan_section, bind, lift.
  destruct (fs_exists fs d) as [[|]|e]; simpl; try reflexivity.
  apply scan_loop_state.
Qed.

Lemma scan_section_outcome fs ROOT name sub w :
  scan_section fs ROOT name (ROOT ++ sub) w =
  (Ok (section_items fs ROOT name (ROOT ++ sub)), w)
  \/ exists e, scan_section fs ROOT name (ROOT ++ sub) w = (Raise e, w).
Proof.
  unfold scan_section, section_items, section_files, bind, lift.
  destruct (fs_exists fs (ROOT ++ sub)) as [[|]|e]; simpl.
  - apply scan_loop_outcome. apply Forall_forall. intros p.
    apply glob_all_under.
  - now left.
  - right. now exists e.
Qed.

Lemma scan_section_eq fs ROOT name sub w :
  is_ok (fs_exists fs (ROOT ++ sub)) = true ->
  listing_inspectable fs (ROOT ++ sub) ->
  scan_section fs ROOT name (ROOT ++ sub) w =
  (Ok (section_items fs ROOT name (ROOT ++ sub)), w).
Proof.
  intros He Hl.
  unfold scan_section, section_items, section_files, bind, lift.
  destruct (fs_exists fs (ROOT ++ sub)) as [[|]|e]; simpl;
    [|reflexivity|discriminate He].
  apply scan_loop_eq.
  - apply Forall_forall. intros p. apply glob_all_under.
  - intros p Hp. apply Hl.
    apply (Permutation_in _ (sorted_perm _)). exact Hp.
Qed.

Lemma scan_section_same fs1 fs2 ROOT name d w1 w2 :
  same_tree fs1 fs2 ->
  fst (scan_section fs1 ROOT name d w1) =
  fst (scan_section fs2 ROOT name d w2).
Proof.
  intros Hs. pose proof Hs as (He & _ & _ & Hg).
  unfold scan_section, bind, lift. rewrite He.
  destruct (fs_exists fs2 d) as [[|]|e]; simpl; try reflexivity.
  rewrite (sorted_of_permutation (glob_all fs1 d) (glob_all fs2 d))
    by (apply Permutation_map, Hg).
  now apply scan_loop_same.
Qed.

(** ** A run *)

Lemma sections_loop_state fs ROOT sections :
  forall acc w, snd (sections_loop fs ROOT sections acc w) = w.
Proof.
  induction sections as [|[name d] rest IH]; intros acc w; [reflexivity|].
  cbn [sections_loop]. unfold bind.
  pose proof (scan_section_state fs ROOT name d w) as Hs.
  destruct (scan_section fs ROOT name d w) as [[its|e] w']; simpl in Hs;
    subst w'; [apply IH|reflexivity].
Qed.

Lemma sections_loop_same fs1 fs2 ROOT sections :
  same_tree fs1 fs2 ->
  forall acc w1 w2,
    fst (sections_loop fs1 ROOT sections acc w1) =
    fst (sections_loop fs2 ROOT sections acc w2).
Proof.
  intros Hs. induction sections as [|[name d] rest IH]; intros acc w1 w2;
    [reflexivity|].
  cbn [sections_loop]. unfold bind.
  pose proof (scan_section_same fs1 fs2 ROOT name d w1 w2 Hs) as E.
  pose proof (scan_section_state fs1 ROOT name d w1) as S1.
  pose proof (scan_section_state fs2 ROOT name d w2) as S2.
  destruct (scan_section fs1 ROOT name d w1) as [r1 w1'],
           (scan_section fs2 ROOT name d w2) as [r2 w2'].
  simpl in E, S1, S2. subst r2 w1' w2'.
  destruct r1 as [its|e]; [apply IH|reflexivity].
Qed.

Lemma section_dir_under ROOT name :
  path_join (GITHUB_DIR ROOT) name = ROOT ++ [py ".github"; name].
Proof. unfold path_join, GITHUB_DIR, path_join. now rewrite <- app_assoc. Qed.

(** The scan of a run returns the records of the three sections, unless
    an [exists()] or an [is_dir()] raises. *)
Lemma sections_loop_outcome fs ROOT w :
  sections_loop fs ROOT (SECTIONS ROOT) [] w = (Ok (all_items fs ROOT), w)
  \/ exists e, sections_loop fs ROOT (SECTIONS ROOT) [] w = (Raise e, w).
Proof.
  unfold SECTIONS, all_items. rewrite !section_dir_under.
  cbn [sections_loop]. unfold bind.
  destruct (scan_section_outcome fs ROOT (py "prompts")
              [py ".github"; py "prompts"] w) as [E1|(e & E1)];
    rewrite E1; [|right; now exists e].
  destruct (scan_section_outcome fs ROOT (py "toolsets")
              [py ".github"; py "toolsets"] w) as [E2|(e & E2)];
    rewrite E2; [|right; now exists e].
  destruct (scan_section_outcome fs ROOT (py "chatmodes")
              [py ".github"; py "chatmodes"] w) as [E3|(e & E3)];
    rewrite E3; [|right; now exists e].
  left. unfold ret. cbn [app]. now rewrite <- app_assoc.
Qed.

Lemma sections_loop_eq fs ROOT w :
  inspectable fs ROOT ->
  sections_loop fs ROOT (SECTIONS ROOT) [] w = (Ok (all_items fs ROOT), w).
Proof.
  intros Hi. unfold inspectable, SECTIONS in Hi.
  destruct (Hi (py "prompts") _ (or_introl eq_refl)) as [He1 Hl1].
  destruct (Hi (py "toolsets") _ (or_intror (or_introl eq_refl)))
    as [He2 Hl2].
  destruct (Hi (py "chatmodes") _
              (or_intror (or_intror (or_introl eq_refl)))) as [He3 Hl3].
  rewrite section_dir_under in He1, Hl1, He2, Hl2, He3, Hl3.
  unfold SECTIONS, all_items. rewrite !section_dir_under.
  cbn [sections_loop]. unfold bind.
  rewrite (scan_section_eq fs ROOT _ _ w He1 Hl1),
          (scan_section_eq fs ROOT _ _ w He2 Hl2),
          (scan_section_eq fs ROOT _ _ w He3 Hl3).
  unfold ret. cbn [app]. now rewrite <- app_assoc.
Qed.

(** What [main] does after the scan. *)
Lemma main_after_scan fs ROOT now w r :
  sections_loop fs ROOT (SECTIONS ROOT) [] w = (r, w) ->
  main fs ROOT now w =
  match r with
  | Ok its =>
      match fs_mkdir fs (OUT_DIR ROOT) with
      | Ok _ =>
          match fs_write_text fs (OUT_FILE ROOT) with
          | Ok _ => (Ok tt, after_run ROOT now its w)
          | Raise e => (Raise e, w)
          end
      | Raise e => (Raise e, w)
      end
  | Raise e => (Raise e, w)
  end.
Proof.
  intros E. unfold main, bind. rewrite E. destruct r as [its|e]; [|reflexivity].
  unfold mkdir, write_text, lift.
  destruct (fs_mkdir fs (OUT_DIR ROOT)); [|reflexivity].
  now destruct (fs_write_text fs (OUT_FILE ROOT)).
Qed.

Lemma main_eq fs ROOT now w :
  inspectable fs ROOT ->
  writable fs ROOT ->
  main fs ROOT now w = (Ok tt, after_run ROOT now (all_items fs ROOT) w).
Proof.
  intros Hi [Hm Hw].
  rewrite (main_after_scan fs ROOT now w _ (sections_loop_eq fs ROOT w Hi)).
  now rewrite Hm, Hw.
Qed.

Lemma section_files_sorted fs d : StronglySorted path_le (section_files fs d).
Proof.
  unfold section_files. destruct (fs_exists fs d) as [[|]|e]; try constructor.
  apply filter_sorted, sorted_sorted.
Qed.

Lemma filter_sorted_length (f : path -> bool) l :
  length (filter f (sorted l)) = length (filter f l).
Proof. apply Permutation_length, filter_perm, sorted_perm. Qed.

Lemma readable_count fs l :
  (length (filter (readable fs) l) + length (filter (unreadable fs) l) =
   length (filter (regular fs) l))%nat.
Proof.
  induction l as [|p l IH]; simpl; [reflexivity|].
  unfold readable, unreadable in *.
  destruct (regular fs p), (is_ok (fs_read_text fs p)); simpl; lia.
Qed.

Lemma two_observations fs1 fs2 ROOT w1 w2 r :
  same_tree fs1 fs2 ->
  sections_loop fs1 ROOT (SECTIONS ROOT) [] w1 = (r, w1) ->
  sections_loop fs2 ROOT (SECTIONS ROOT) [] w2 = (r, w2).
Proof.
  intros Hs E.
  rewrite (surjective_pairing (sections_loop fs2 ROOT (SECTIONS ROOT) [] w2)).
  rewrite sections_loop_state.
  rewrite <- (sections_loop_same fs1 fs2 ROOT (SECTIONS ROOT) Hs [] w1 w2).
  now rewrite E.
Qed.

(** C3.  Two runs over one directory tree write the same [items] array,
    whatever the order in which the operating system enumerates the
    directories and whatever the two timestamps: the array holds the
    records of the sections prompts, toolsets, chatmodes in that order,
    and the records of a section are those of its readable files in
    sorted path order.  The two runs also agree when a [stat] of the scan
    fails: both raise the same exception and write nothing; when no
    [stat] fails, both write. *)
Theorem scan_is_deterministic fs1 fs2 ROOT now1 now2 w1 w2 :
  same_tree fs1 fs2 ->
  writable fs1 ROOT ->
  writable fs2 ROOT ->
  let prompts := path_join (GITHUB_DIR ROOT) (py "prompts") in
  let toolsets := path_join (GITHUB_DIR ROOT) (py "toolsets") in
  let chatmodes := path_join (GITHUB_DIR ROOT) (py "chatmodes") in
  let all :=
    map (item_of fs1 ROOT (py "prompts")) (section_files fs1 prompts) ++
    map (item_of fs1 ROOT (py "toolsets")) (section_files fs1 toolsets) ++
    map (item_of fs1 ROOT (py "chatmodes")) (section_files fs1 chatmodes) in
  ((main fs1 ROOT now1 w1 = (Ok tt, after_run ROOT now1 all w1)
    /\ main fs2 ROOT now2 w2 = (Ok tt, after_run ROOT now2 all w2))
   \/ (exists e, main fs1 ROOT now1 w1 = (Raise e, w1)
                 /\ main fs2 ROOT now2 w2 = (Raise e, w2)))
  /\ (inspectable fs1 ROOT ->
      main fs1 ROOT now1 w1 = (Ok tt, after_run ROOT now1 all w1)
      /\ main fs2 ROOT now2 w2 = (Ok tt, after_run ROOT now2 all w2))
  /\ StronglySorted path_le (section_files fs1 prompts)
  /\ StronglySorted path_le (section_files fs1 toolsets)
  /\ StronglySorted path_le (section_files fs1 chatmodes).
Proof.
  intros Hsame [Hm1 Hw1] [Hm2 Hw2]. cbv zeta.
  assert (Hok : forall r,
             sections_loop fs1 ROOT (SECTIONS ROOT) [] w1 = (r, w1) ->
             main fs1 ROOT now1 w1 =
               match r with
               | Ok its => (Ok tt, after_run ROOT now1 its w1)
               | Raise e => (Raise e, w1)
               end
             /\ main fs2 ROOT now2 w2 =
               match r with
               | Ok its => (Ok tt, after_run ROOT now2 its w2)
               | Raise e => (Raise e, w2)
               end).
  { intros r E.
    rewrite (main_after_scan fs1 ROOT now1 w1 r E).
    rewrite (main_after_scan fs2 ROOT now2 w2 r
               (two_observations fs1 fs2 ROOT w1 w2 r Hsame E)).
    rewrite Hm1, Hw1, Hm2, Hw2. now destruct r. }
  split; [|split; [|repeat split; apply section_files_sorted]].
  - destruct (sections_loop_outcome fs1 ROOT w1) as [E|(e & E)].
    + left. exact (Hok _ E).
    + right. exists e. exact (Hok _ E).
  - intros Hi. exact (Hok _ (sections_loop_eq fs1 ROOT w1 Hi)).
Qed.

Lemma ex_same_tree : same_tree ex_fs1 ex_fs2.
Proof.
  repeat split. intros d. simpl.
  destruct (path_eqb d ex_prompts); [|constructor].
  apply (Permutation_rev
           [[py "b.md"]; [py "sub"]; [py "a.md"]; [py "sub"; py "c.bin"]]).
Defined.

Lemma ex_inspectable : inspectable ex_fs1 ex_root.
Proof. intros name d _. split; [reflexivity|]. intros p _. reflexivity. Defined.

Lemma scan_is_deterministic_witness :
  main ex_fs1 ex_root (py "2024-01-01T00:00:00") ex_world =
    (Ok tt,
     after_run ex_root (py "2024-01-01T00:00:00")
       [ {| item_path := py ".github/prompts/a.md";
            item_type := py "prompts";
            item_filename := py "a.md";
            item_title := py "A";
            item_description := py "alpha" |};
         {| item_path := py ".github/prompts/b.md";
            item_type := py "prompts";
            item_filename := py "b.md";
            item_title := py "beta";
            item_description := py "beta" |} ]
       ex_world)
  /\ main ex_fs2 ex_root (py "2024-06-30T12:00:00") ex_world =
    (Ok tt,
     after_run ex_root (py "2024-06-30T12:00:00")
       [ {| item_path := py ".github/prompts/a.md";
            item_type := py "prompts";
            item_filename := py "a.md";
            item_title := py "A";
            item_description := py "alpha" |};
         {| item_path := py ".github/prompts/b.md";
            item_type := py "prompts";
            item_filename := py "b.md";
            item_title := py "beta";
            item_description := py "beta" |} ]
       ex_world).
Proof.
  pose proof (scan_is_deterministic ex_fs1 ex_fs2 ex_root
                (py "2024-01-01T00:00:00") (py "2024-06-30T12:00:00")
                ex_world ex_world ex_same_tree
                (conj eq_refl eq_refl) (conj eq_refl eq_refl)) as H.
  cbv zeta in H. destruct H as (_ & H & _).
  destruct (H ex_inspectable) as [H1 H2]. split.
  - rewrite H1. reflexivity.
  - rewrite H2. reflexivity.
Defined.

(** C6.  A section whose directory does not exist gives no record and
    raises nothing, and the loop over the sections goes on with the
    sections that remain. *)
Theorem missing_directory_gives_no_record fs ROOT name d w :
  fs_exists fs d = Ok false ->
  scan_section fs ROOT name d w = (Ok [], w)
  /\ forall rest acc,
      sections_loop fs ROOT ((name, d) :: rest) acc w =
      sections_loop fs ROOT rest acc w.
Proof.
  intros H.
  assert (Hs : scan_section fs ROOT name d w = (Ok [], w)).
  { unfold scan_section, bind, lift. now rewrite H. }
  split; [exact Hs|]. intros rest acc. simpl. unfold bind.
  now rewrite Hs, app_nil_r.
Qed.

Lemma missing_directory_gives_no_record_witness :
  scan_section ex_fs1 ex_root (py "toolsets")
    (ex_root ++ [py ".github"; py "toolsets"]) ex_world = (Ok [], ex_world).
Proof.
  apply (missing_directory_gives_no_record ex_fs1 ex_root (py "toolsets")
           (ex_root ++ [py ".github"; py "toolsets"]) ex_world).
  reflexivity.
Defined.

(** C7, as amended.  A file on which [is_dir()] answers [False] and whose
    read fails is passed over: the loop goes on with the files that
    remain, with the records and the state (standard output included) it
    had before that file.  For a section below the root whose paths
    [is_dir()] answers for, the scan raises nothing, leaves the state
    unchanged and returns the records of the readable files only; the
    files whose read failed are missing from the count of the records,
    and nowhere else. *)
Theorem unreadable_file_is_skipped fs ROOT name :
  (forall p ps acc w e,
      fs_is_dir fs p = Ok false ->
      fs_read_text fs p = Raise e ->
      scan_loop fs ROOT name (p :: ps) acc w = scan_loop fs ROOT name ps acc w)
  /\ (forall sub w,
         fs_exists fs (ROOT ++ sub) = Ok true ->
         listing_inspectable fs (ROOT ++ sub) ->
         scan_section fs ROOT name (ROOT ++ sub) w =
         (Ok (map (item_of fs ROOT name)
                (filter (readable fs) (sorted (glob_all fs (ROOT ++ sub))))),
          w)
         /\ (length (filter (readable fs) (sorted (glob_all fs (ROOT ++ sub))))
             + length (filter (unreadable fs) (glob_all fs (ROOT ++ sub)))
             = length (filter (regular fs) (glob_all fs (ROOT ++ sub))))%nat).
Proof.
  split.
  - intros p ps acc w e Hd Hr. now apply (scan_loop_read_error fs ROOT name p ps acc w e).
  - intros sub w He Hl. split.
    + rewrite scan_section_eq; [|now rewrite He|exact Hl].
      unfold section_items, section_files. now rewrite He.
    + rewrite filter_sorted_length. apply readable_count.
Qed.

Lemma ex_prompts_inspectable : listing_inspectable ex_fs1 ex_prompts.
Proof. intros p _. reflexivity. Defined.

Lemma unreadable_file_is_skipped_witness :
  scan_loop ex_fs1 ex_root (py "prompts")
    [ex_prompts ++ [py "sub"; py "c.bin"]; ex_prompts ++ [py "b.md"]]
    [] ex_world =
  scan_loop ex_fs1 ex_root (py "prompts")
    [ex_prompts ++ [py "b.md"]] [] ex_world
  /\ scan_section ex_fs1 ex_root (py "prompts") ex_prompts ex_world =
     (Ok [ {| item_path := py ".github/prompts/a.md";
              item_type := py "prompts";
              item_filename := py "a.md";
              item_title := py "A";
              item_description := py "alpha" |};
           {| item_path := py ".github/prompts/b.md";
              item_type := py "prompts";
              item_filename := py "b.md";
              item_title := py "beta";
              item_description := py "beta" |} ],
      ex_world).
Proof.
  split.
  - apply (proj1 (unreadable_file_is_skipped ex_fs1 ex_root (py "prompts"))
             _ _ _ _ UnicodeDecodeError); reflexivity.
  - destruct (proj2 (unreadable_file_is_skipped ex_fs1 ex_root (py "prompts"))
                [py ".github"; py "prompts"] ex_world eq_refl
                ex_prompts_inspectable) as [H _].
    exact H.
Defined.

(** C7 as stated fails: the file [sub/c.bin] of the locked tree cannot be
    read, [is_dir()] raises on it before the guarded read is reached, and
    the loop stops with that exception instead of going on. *)
Lemma unstatable_file_stops_scan :
  ~ (forall fs ROOT name p ps acc w e,
        fs_read_text fs p = Raise e ->
        scan_loop fs ROOT name (p :: ps) acc w =
        scan_loop fs ROOT name ps acc w).
Proof.
  intros H.
  specialize (H ex_fs_locked ex_root (py "prompts")
                (ex_prompts ++ [py "sub"; py "c.bin"]) [] [] ex_world
                PermissionError eq_refl).
  discriminate H.
Qed.

(** The scan of the section that holds that file raises the exception of
    [is_dir()] and returns no record at all. *)
Lemma locked_tree_scan_raises :
  fs_read_text ex_fs_locked (ex_prompts ++ [py "sub"; py "c.bin"]) =
    Raise PermissionError
  /\ scan_section ex_fs_locked ex_root (py "prompts") ex_prompts ex_world =
    (Raise PermissionError, ex_world).
Proof. split; reflexivity. Qed.

(** * Further lemmas *)

(** ** More on the title *)

Lemma splitlines_In s l c : In l (splitlines s) -> In c l -> In c s.
Proof.
  revert l c. induction s as [|x|x x' s IHs IHxs] using str_ind2;
    intros l c Hl Hc.
  - destruct Hl.
  - rewrite splitlines_cons in Hl. destruct (is_linebreak x).
    + destruct Hl as [<-|[]]. destruct Hc.
    + simpl in Hl. destruct Hl as [<-|[]]. exact Hc.
  - rewrite splitlines_cons in Hl. destruct (is_linebreak x).
    + destruct Hl as [<-|Hl]; [destruct Hc|].
      destruct ((x =? CR) && (x' =? LF)).
      * right. right. eapply IHs; eassumption.
      * right. eapply IHxs; eassumption.
    + destruct (splitlines (x' :: s)) as [|l0 ls] eqn:E.
      * destruct Hl as [<-|[]]. destruct Hc as [<-|[]]. now left.
      * destruct Hl as [<-|Hl].
        -- destruct Hc as [<-|Hc]; [now left|].
           right. apply (IHxs l0); [now left|exact Hc].
        -- right. apply (IHxs l); [now right|exact Hc].
Qed.

Lemma first_nonempty_none_iff text :
  first_nonempty_line text = None <-> forallb isspace text = true.
Proof.
  unfold first_nonempty_line, stripped_lines. split.
  - intros H. apply forallb_forall. intros c Hc.
    destruct (splitlines_cover _ _ Hc) as [Hb|(l & Hl & Hin)];
      [now apply is_linebreak_isspace|].
    pose proof (find_none _ _ H (strip l) (in_map strip _ _ Hl)) as Hs.
    destruct (strip l) eqn:E; [|discriminate].
    apply strip_nil_iff in E. rewrite forallb_forall in E. now apply E.
  - intros H. rewrite forallb_forall in H.
    destruct (find nonempty (map strip (splitlines text))) as [x|] eqn:E;
      [|reflexivity].
    apply find_some in E. destruct E as [Hin Hx].
    apply in_map_iff in Hin. destruct Hin as (l & <- & Hl).
    assert (Hs : strip l = []).
    { apply strip_nil_iff, forallb_forall. intros c Hc.
      apply H. eapply splitlines_In; eassumption. }
    rewrite Hs in Hx. discriminate.
Qed.

Lemma title_nil_iff text :
  fst (extract_title_and_description text) = [] <->
  first_nonempty_line text = None.
Proof.
  rewrite title_eq.
  destruct (first_header_line text) as [h|] eqn:Eh; simpl.
  - destruct (first_header_has_nonempty _ _ Eh) as (x & Ex).
    pose proof Ex as Hx. apply find_some in Hx. destruct Hx as [_ Hx].
    rewrite Ex.
    destruct (strip (re_sub_start HEADER_RE h)) as [|c r]; simpl.
    + destruct x; [discriminate|]. split; discriminate.
    + split; discriminate.
  - destruct (first_nonempty_line text) as [x|] eqn:Ex; simpl; [|tauto].
    apply find_some in Ex. destruct Ex as [_ Hx].
    destruct x; [discriminate|]. split; discriminate.
Qed.

(** ** More on the description *)

Lemma desc_spec text :
  snd (extract_title_and_description text) = spec_description text.
Proof.
  rewrite desc_eq. unfold spec_description, spec_paragraphs.
  destruct (strip text) as [|c r] eqn:E; [reflexivity|].
  assert (Ht : trimmed_rest (c :: r))
    by (rewrite <- E; apply trimmed_rest_strip; now rewrite E).
  rewrite <- (re_split_line_paragraphs _ Ht).
  apply desc_loop_find, paragraphs_not_blank, Ht.
Qed.

Lemma spec_paragraphs_not_blank text :
  Forall (fun p => strip p <> []) (spec_paragraphs text).
Proof.
  unfold spec_paragraphs. destruct (strip text) as [|c r] eqn:E.
  - constructor.
  - assert (Ht : trimmed_rest (c :: r))
      by (rewrite <- E; apply trimmed_rest_strip; now rewrite E).
    rewrite <- (re_split_line_paragraphs _ Ht).
    now apply paragraphs_not_blank.
Qed.

(** ** One line, no header *)

Lemma splitlines_one_line s :
  forallb (fun c => negb (is_linebreak c)) s = true ->
  splitlines s = match s with [] => [] | _ => [s] end.
Proof.
  induction s as [|c s IH]; [reflexivity|]. simpl forallb.
  intros H. apply andb_true_iff in H. destruct H as [Hc Hs].
  apply negb_true_iff in Hc. rewrite splitlines_cons, Hc, (IH Hs).
  now destruct s.
Qed.

Lemma replace_lf_no_lf s : no_lf s -> replace_lf s = s.
Proof.
  unfold no_lf, replace_lf. induction s as [|c s IH]; [reflexivity|].
  simpl. intros H. apply andb_true_iff in H. destruct H as [Hc Hs].
  apply negb_true_iff in Hc. now rewrite Hc, IH.
Qed.

Lemma no_lf_of_no_linebreak s :
  forallb (fun c => negb (is_linebreak c)) s = true -> no_lf s.
Proof.
  unfold no_lf. rewrite !forallb_forall. intros H c Hc.
  specialize (H c Hc). destruct (is_lf c) eqn:E; [|reflexivity].
  apply is_lf_eq in E. subst c. discriminate H.
Qed.

Lemma no_lf_strip s : no_lf s -> no_lf (strip s).
Proof.
  unfold no_lf. rewrite !forallb_forall. intros H c Hc.
  apply H. now apply strip_In.
Qed.

(** ** Whitespace around the text *)

Lemma find_filter (f g : str -> bool) l :
  (forall x, f x = true -> g x = true) -> find f (filter g l) = find f l.
Proof.
  intros Hfg. induction l as [|x l IH]; [reflexivity|]. simpl.
  destruct (g x) eqn:Hg; simpl.
  - now rewrite IH.
  - destruct (f x) eqn:Hf; [|exact IH]. apply Hfg in Hf. congruence.
Qed.

Lemma title_of_title_lines t1 t2 :
  title_lines t1 = title_lines t2 ->
  fst (extract_title_and_description t1) =
  fst (extract_title_and_description t2).
Proof.
  intros H. rewrite !title_eq. unfold first_header_line, first_nonempty_line.
  rewrite <- (find_filter startswith_hash nonempty (stripped_lines t1)),
          <- (find_filter startswith_hash nonempty (stripped_lines t2)),
          <- (find_filter nonempty nonempty (stripped_lines t1)),
          <- (find_filter nonempty nonempty (stripped_lines t2));
    try (intros [|c r]; simpl; congruence).
  fold (title_lines t1). fold (title_lines t2). now rewrite H.
Qed.

Lemma strip_cons_space c s : isspace c = true -> strip (c :: s) = strip s.
Proof. intros H. unfold strip, lstrip. simpl. now rewrite H. Qed.

Lemma strip_of_rstrip s : strip s = lstrip (rstrip s).
Proof. symmetry. apply lstrip_rstrip. Qed.

Lemma title_lines_cons_space c s :
  isspace c = true -> title_lines (c :: s) = title_lines s.
Proof.
  intros Hc. unfold title_lines, stripped_lines. rewrite splitlines_cons.
  destruct (is_linebreak c) eqn:Hb.
  - simpl. destruct s as [|c' s'']; [reflexivity|].
    destruct ((c =? CR) && (c' =? LF)) eqn:Hcr; [|reflexivity].
    apply andb_true_iff in Hcr. destruct Hcr as [_ Hlf].
    apply N.eqb_eq in Hlf. subst c'. rewrite splitlines_cons.
    rewrite is_linebreak_LF. simpl. now destruct s''.
  - destruct (splitlines s) as [|l ls]; simpl.
    + rewrite strip_cons_space by exact Hc. reflexivity.
    + now rewrite strip_cons_space by exact Hc.
Qed.

Lemma rstrip_cons_same x l' l : rstrip l' = rstrip l -> rstrip (x :: l') = rstrip (x :: l).
Proof. intros H. now rewrite !rstrip_cons, H. Qed.

Lemma same_lines_cons a L' L : same_lines L' L -> same_lines (a :: L') (a :: L).
Proof. intros [H|H]; [left|right]; simpl; now rewrite H. Qed.

(** Putting a character in front of the first line. *)
Lemma same_lines_head x L' L :
  same_lines L' L ->
  same_lines match L' with [] => [[x]] | l :: ls => (x :: l) :: ls end
             match L with [] => [[x]] | l :: ls => (x :: l) :: ls end.
Proof.
  intros [H|H].
  - left. destruct L' as [|l' ls'], L as [|l ls]; try discriminate;
      [reflexivity|].
    simpl in *. injection H as H1 H2. now rewrite (rstrip_cons_same x _ _ H1), H2.
  - destruct L as [|l ls].
    + left. destruct L' as [|l' [|? ?]]; try discriminate.
      simpl in *. injection H as H1. f_equal.
      rewrite rstrip_cons, H1. now rewrite rstrip_cons, rstrip_nil.
    + right. destruct L' as [|l' ls']; [discriminate|].
      simpl in *. injection H as H1 H2.
      now rewrite (rstrip_cons_same x _ _ H1), H2.
Qed.

Lemma rstrip_space c : isspace c = true -> rstrip [c] = [].
Proof. intros H. now rewrite rstrip_cons, rstrip_nil, H. Qed.

Lemma splitlines_snoc_space c s :
  isspace c = true -> same_lines (splitlines (s ++ [c])) (splitlines s).
Proof.
  intros Hc. induction s as [|x|x x' s IHs IHxs] using str_ind2.
  - right. simpl app. rewrite splitlines_cons.
    destruct (is_linebreak c); simpl; [reflexivity|].
    now rewrite rstrip_space.
  - simpl app. rewrite !(splitlines_cons x). destruct (is_linebreak x).
    + destruct ((x =? CR) && (c =? LF)); [now left|].
      right. rewrite splitlines_cons. destruct (is_linebreak c); simpl;
        [reflexivity|]. now rewrite rstrip_space.
    + apply (same_lines_head x (splitlines [c]) []).
      right. rewrite splitlines_cons. destruct (is_linebreak c); simpl;
        [reflexivity|]. now rewrite rstrip_space.
  - change ((x :: x' :: s) ++ [c]) with (x :: x' :: (s ++ [c])).
    rewrite !(splitlines_cons x). destruct (is_linebreak x).
    + apply same_lines_cons.
      destruct ((x =? CR) && (x' =? LF)); [exact IHs|exact IHxs].
    + apply same_lines_head. exact IHxs.
Qed.

Lemma title_lines_snoc_space c s :
  isspace c = true -> title_lines (s ++ [c]) = title_lines s.
Proof.
  intros Hc. unfold title_lines, stripped_lines.
  assert (Hm : forall L, map strip L = map lstrip (map rstrip L)).
  { intros L. rewrite map_map. apply map_ext, strip_of_rstrip. }
  rewrite !Hm. destruct (splitlines_snoc_space c s Hc) as [H|H]; rewrite H.
  - reflexivity.
  - rewrite map_app, filter_app. simpl. now rewrite app_nil_r.
Qed.

Lemma title_lines_padding a s b :
  forallb isspace a = true -> forallb isspace b = true ->
  title_lines (a ++ s ++ b) = title_lines s.
Proof.
  intros Ha Hb. transitivity (title_lines (s ++ b)).
  - induction a as [|c a IH]; [reflexivity|]. simpl in Ha.
    apply andb_true_iff in Ha. destruct Ha as [Hc Ha].
    simpl app. rewrite title_lines_cons_space by exact Hc. now apply IH.
  - clear Ha. induction b as [|c b IH] using rev_ind.
    + now rewrite app_nil_r.
    + rewrite forallb_app in Hb. apply andb_true_iff in Hb.
      destruct Hb as [Hb Hc]. simpl in Hc. rewrite andb_true_r in Hc.
      rewrite app_assoc, title_lines_snoc_space by exact Hc. now apply IH.
Qed.

Lemma lstrip_app_space a s :
  forallb isspace a = true -> lstrip (a ++ s) = lstrip s.
Proof.
  intros Ha. unfold lstrip. induction a as [|c a IH]; [reflexivity|].
  simpl in *. apply andb_true_iff in Ha. destruct Ha as [Hc Ha].
  rewrite Hc. now apply IH.
Qed.

Lemma rstrip_app_space s b :
  forallb isspace b = true -> rstrip (s ++ b) = rstrip s.
Proof.
  intros Hb. induction s as [|c s IH].
  - simpl. now apply rstrip_nil_iff.
  - simpl app. now rewrite !rstrip_cons, IH.
Qed.

Lemma strip_padding a s b :
  forallb isspace a = true -> forallb isspace b = true ->
  strip (a ++ s ++ b) = strip s.
Proof.
  intros Ha Hb. unfold strip. rewrite lstrip_app_space by exact Ha.
  rewrite <- !lstrip_rstrip. now rewrite rstrip_app_space.
Qed.

Lemma extract_padding a text b :
  forallb isspace a = true -> forallb isspace b = true ->
  extract_title_and_description (a ++ text ++ b) =
  extract_title_and_description text.
Proof.
  intros Ha Hb.
  rewrite (surjective_pairing (extract_title_and_description (a ++ text ++ b))),
          (surjective_pairing (extract_title_and_description text)).
  f_equal.
  - apply title_of_title_lines. now apply title_lines_padding.
  - rewrite !desc_eq. now rewrite strip_padding.
Qed.

(** ** Where the title and the description come from *)

Lemma infix_refl s : infix s s.
Proof. exists [], []. now rewrite app_nil_r. Qed.

Lemma infix_nil s : infix [] s.
Proof. now exists [], s. Qed.

Lemma infix_trans s t u : infix s t -> infix t u -> infix s u.
Proof.
  intros (a & b & ->) (a' & b' & ->). exists (a' ++ a), (b ++ b').
  now rewrite <- !app_assoc.
Qed.

Lemma infix_cons c s t : infix s t -> infix s (c :: t).
Proof. intros (a & b & ->). now exists (c :: a), b. Qed.

Lemma infix_suffix a s : infix s (a ++ s).
Proof. exists a, []. now rewrite app_nil_r. Qed.

Lemma infix_prefix s b : infix s (s ++ b).
Proof. now exists [], b. Qed.

Lemma rstrip_split s :
  exists suf, s = rstrip s ++ suf /\ forallb isspace suf = true.
Proof.
  induction s as [|c s (suf & E & F)].
  - now exists [].
  - rewrite rstrip_cons. destruct (rstrip s) as [|d r] eqn:Er.
    + destruct (isspace c) eqn:Hc.
      * exists (c :: s). split; [reflexivity|]. simpl. rewrite Hc.
        now apply rstrip_nil_iff.
      * exists s. split; [reflexivity|]. now apply rstrip_nil_iff.
    + exists suf. split; [|exact F]. simpl. f_equal. exact E.
Qed.

Lemma strip_split s :
  exists a b, s = a ++ strip s ++ b
              /\ forallb isspace a = true /\ forallb isspace b = true.
Proof.
  destruct (dropwhile_split isspace s) as (a & Ea & Fa).
  destruct (rstrip_split (lstrip s)) as (b & Eb & Fb).
  exists a, b. split; [|now split]. unfold strip.
  rewrite <- Eb. exact Ea.
Qed.

Lemma strip_infix s : infix (strip s) s.
Proof. destruct (strip_split s) as (a & b & E & _). now exists a, b. Qed.

Lemma splitlines_pieces s :
  (forall l ls, splitlines s = l :: ls -> exists t, s = l ++ t)
  /\ (forall l, In l (splitlines s) -> infix l s).
Proof.
  induction s as [|x|x x' s [IHs1 IHs2] [IHx1 IHx2]] using str_ind2.
  - split; [discriminate|intros l []].
  - rewrite splitlines_cons. destruct (is_linebreak x); simpl; split.
    + intros l ls H. injection H as <- _. now exists [x].
    + intros l [<-|[]]. apply infix_nil.
    + intros l ls H. injection H as <- _. now exists [].
    + intros l [<-|[]]. apply infix_refl.
  - rewrite splitlines_cons. destruct (is_linebreak x).
    + split.
      * intros l ls H. injection H as <- _. now exists (x :: x' :: s).
      * intros l [<-|Hl]; [apply infix_nil|].
        destruct ((x =? CR) && (x' =? LF)).
        -- now apply infix_cons, infix_cons, IHs2.
        -- now apply infix_cons, IHx2.
    + destruct (splitlines (x' :: s)) as [|l0 ls0] eqn:E.
      * split.
        -- intros l ls H. injection H as <- _. now exists (x' :: s).
        -- intros l [<-|[]]. apply (infix_prefix [x]).
      * destruct (IHx1 l0 ls0 eq_refl) as (t & Et). split.
        -- intros l ls H. injection H as <- _. exists t. simpl. now rewrite <- Et.
        -- intros l [<-|Hl].
           ++ rewrite Et. apply (infix_prefix (x :: l0)).
           ++ apply infix_cons, IHx2. now right.
Qed.

Lemma stripped_line_infix text x : In x (stripped_lines text) -> infix x text.
Proof.
  unfold stripped_lines. rewrite in_map_iff. intros (l & <- & Hl).
  eapply infix_trans; [apply strip_infix|].
  now apply (proj2 (splitlines_pieces text)).
Qed.

Lemma strip_markers_infix h : infix (strip_markers h) h.
Proof.
  unfold strip_markers.
  destruct (dropwhile_split is_hash h) as (p1 & E1 & _).
  destruct (dropwhile_split isspace (dropwhile is_hash h)) as (p2 & E2 & _).
  rewrite E1 at 2. rewrite E2 at 2. rewrite app_assoc. apply infix_suffix.
Qed.

Lemma title_infix text : infix (fst (extract_title_and_description text)) text.
Proof.
  rewrite title_eq.
  assert (Hfb : forall t, t = None \/ t = Some [] ->
            infix (or_empty match first_nonempty_line text with
                            | Some x => Some x
                            | None => t
                            end) text).
  { intros t Ht. destruct (first_nonempty_line text) as [x|] eqn:E; simpl.
    - apply find_some in E. now apply stripped_line_infix.
    - destruct Ht as [-> | ->]; apply infix_nil. }
  destruct (first_header_line text) as [h|] eqn:E; simpl.
  - apply find_some in E. destruct E as [Hin Hh].
    destruct (strip (re_sub_start HEADER_RE h)) as [|c r] eqn:Et; simpl.
    + apply Hfb. now right.
    + rewrite <- Et. rewrite re_sub_header by exact Hh.
      eapply infix_trans; [apply strip_infix|].
      eapply infix_trans; [apply strip_markers_infix|].
      now apply stripped_line_infix.
  - apply Hfb. now left.
Qed.

Lemma re_split_infix s p :
  In p (re_split PARAGRAPH_RE s) -> infix p s.
Proof.
  remember (length s) as n eqn:Hn. revert s Hn p.
  induction n as [n IH] using lt_wf_ind. intros s -> p.
  rewrite re_split_paragraphs.
  destruct (re_search PARAGRAPH_RE s) as [[b a]|] eqn:E.
  - pose proof (re_search_paragraph_shorter _ _ _ E) as Hlt.
    destruct (re_search_some _ _ _ _ E) as (m & -> & Hm).
    destruct (match_paragraph_re _ _ Hm) as (_ & w & -> & _).
    intros [<-|Hp]; [apply infix_prefix|].
    eapply infix_trans; [apply (IH _ Hlt a eq_refl p Hp)|].
    exists (b ++ LF :: w ++ [LF]), []. rewrite app_nil_r, <- !app_assoc.
    simpl. now rewrite <- app_assoc.
  - intros [<-|[]]. apply infix_refl.
Qed.

Lemma desc_loop_piece ps :
  exists p, (p = [] \/ exists q, In q ps /\ p = strip q)
            /\ or_empty (desc_loop ps) = replace_lf p.
Proof.
  induction ps as [|q ps (p & Hp & E)]; simpl.
  - exists []. auto.
  - assert (Hrest : exists p, (p = [] \/ exists q0, (q = q0 \/ In q0 ps) /\ p = strip q0)
                              /\ or_empty (desc_loop ps) = replace_lf p).
    { exists p. split; [|exact E]. destruct Hp as [->|(q0 & Hq & ->)]; [now left|].
      right. exists q0. auto. }
    destruct (strip q) as [|c r] eqn:Eq; [exact Hrest|].
    destruct (startswith_hash (c :: r)); [exact Hrest|].
    exists (strip q). split; [right; exists q; auto|]. simpl.
    now rewrite strip_replace_lf, <- Eq, strip_idem.
Qed.

Lemma desc_piece text :
  exists p, infix p text
            /\ snd (extract_title_and_description text) = replace_lf p.
Proof.
  rewrite desc_eq.
  destruct (desc_loop_piece (re_split PARAGRAPH_RE (strip text)))
    as (p & Hp & E).
  exists p. split; [|exact E].
  destruct Hp as [->|(q & Hq & ->)]; [apply infix_nil|].
  eapply infix_trans; [apply strip_infix|].
  eapply infix_trans; [apply (re_split_infix _ _ Hq)|apply strip_infix].
Qed.

(** ** Title and description of a text without header *)

Lemma rstrip_app_prefix a b : exists z, rstrip (a ++ b) = rstrip a ++ z.
Proof.
  induction a as [|c a (z & E)]; [now exists (rstrip b)|].
  simpl app. rewrite !rstrip_cons, E.
  destruct (rstrip a) as [|d r]; simpl.
  - destruct z as [|e z'].
    + exists []. now rewrite app_nil_r.
    + destruct (isspace c); [now exists (c :: e :: z')|now exists (e :: z')].
  - now exists z.
Qed.

Lemma replace_lf_app a b : replace_lf (a ++ b) = replace_lf a ++ replace_lf b.
Proof. apply map_app. Qed.

Lemma strip_nonspace_head c s :
  isspace c = false -> strip (c :: s) = rstrip (c :: s).
Proof. intros H. unfold strip, lstrip. simpl. now rewrite H. Qed.

Lemma first_header_of_title_lines text :
  first_header_line text = find startswith_hash (title_lines text).
Proof.
  unfold first_header_line, title_lines. symmetry. apply find_filter.
  now intros [|c r].
Qed.

(** The first piece [re.split] cuts off: the text up to its end or up to
    a newline. *)
Lemma re_split_first s :
  exists p ps m, re_split PARAGRAPH_RE s = p :: ps /\ s = p ++ m
                 /\ (m = [] \/ exists m', m = LF :: m').
Proof.
  rewrite re_split_paragraphs.
  destruct (re_search PARAGRAPH_RE s) as [[b a]|] eqn:E.
  - destruct (re_search_some _ _ _ _ E) as (m & -> & Hm).
    destruct (match_paragraph_re _ _ Hm) as (_ & w & -> & _).
    exists b, (re_split PARAGRAPH_RE a), (LF :: w ++ LF :: a).
    split; [reflexivity|]. split; [reflexivity|]. right. now eexists.
  - exists s, [], []. now rewrite app_nil_r; auto.
Qed.

Lemma title_prefix_trimmed s :
  strip s = s -> first_header_line s = None ->
  exists rest,
    snd (extract_title_and_description s) =
    fst (extract_title_and_description s) ++ rest.
Proof.
  intros Hs Hh. destruct s as [|c r]; [now exists []|].
  assert (Hc : isspace c = false) by (now apply (strip_head _ _ _ Hs)).
  assert (Hb : is_linebreak c = false).
  { destruct (is_linebreak c) eqn:E; [|reflexivity].
    apply is_linebreak_isspace in E. congruence. }
  (* the first line *)
  assert (Hl : exists l1 ls t,
             splitlines (c :: r) = (c :: l1) :: ls /\ r = l1 ++ t).
  { rewrite splitlines_cons, Hb.
    destruct (splitlines r) as [|l0 ls0] eqn:E.
    - destruct r; [|now rewrite splitlines_cons in E;
                     destruct (is_linebreak c0), (splitlines r)].
      now exists [], [], [].
    - destruct (proj1 (splitlines_pieces r) l0 ls0 E) as (t & Et).
      now exists l0, ls0, t. }
  destruct Hl as (l1 & ls & t & El & Et).
  assert (Hnl : forall x, In x (c :: l1) -> is_linebreak x = false).
  { intros x Hx. apply (splitlines_no_linebreak (c :: r) (c :: l1));
      [rewrite El; now left|exact Hx]. }
  assert (Hhash : is_hash c = false).
  { unfold first_header_line, stripped_lines in Hh. rewrite El in Hh.
    simpl in Hh. rewrite strip_nonspace_head, rstrip_cons_nonspace in Hh
      by exact Hc.
    simpl in Hh. now destruct (is_hash c). }
  assert (Htitle : fst (extract_title_and_description (c :: r)) =
                   rstrip (c :: l1)).
  { rewrite title_eq, Hh. unfold first_nonempty_line, stripped_lines.
    rewrite El. simpl. rewrite strip_nonspace_head by exact Hc.
    now rewrite rstrip_cons_nonspace by exact Hc. }
  (* the first paragraph *)
  destruct (re_split_first (c :: r)) as (p & ps & m & Ep & Em & Hm).
  assert (Hp : exists r', p = (c :: l1) ++ r').
  { assert (E2 : p ++ m = (c :: l1) ++ t) by (rewrite <- Em, Et; reflexivity).
    apply app_eq_app in E2. destruct E2 as (l & [[E1 E2]|[E1 E2]]).
    - now exists l.
    - destruct l as [|x l];
        [exists []; rewrite app_nil_r in *; now symmetry|].
      destruct Hm as [->|(m' & ->)]; [discriminate|].
      injection E2 as <- _.
      assert (Hin : In LF (c :: l1)) by (rewrite E1; apply in_or_app; right; now left).
      apply Hnl in Hin. discriminate. }
  destruct Hp as (r' & ->).
  destruct (rstrip_app_prefix (c :: l1) r') as (z & Ez).
  exists (replace_lf z). rewrite Htitle, desc_eq, Hs, Ep.
  change ((c :: l1) ++ r') with (c :: (l1 ++ r')) in *.
  cbn [desc_loop]. rewrite !strip_nonspace_head by exact Hc.
  rewrite !rstrip_cons_nonspace in * by exact Hc.
  cbn [startswith_hash]. rewrite Hhash. cbn [or_empty].
  rewrite strip_replace_lf, strip_nonspace_head, rstrip_cons_nonspace
    by exact Hc.
  rewrite rstrip_idem. injection Ez as Ez. rewrite Ez.
  change (c :: rstrip l1 ++ z) with ((c :: rstrip l1) ++ z).
  rewrite replace_lf_app. f_equal. apply replace_lf_no_lf.
  unfold no_lf. apply forallb_forall. intros x Hx.
  assert (Hx' : In x (c :: l1)).
  { destruct Hx as [<-|Hx]; [now left|right; now apply rstrip_In]. }
  apply Hnl in Hx'. destruct (is_lf x) eqn:E; [|reflexivity].
  apply is_lf_eq in E. subst x. discriminate.
Qed.

(** ** More on the scan *)

Lemma relative_to_raises p root e : relative_to p root = Raise e -> e = ValueError.
Proof.
  revert p. induction root as [|r root IH]; intros p; simpl; [discriminate|].
  destruct p as [|c p]; [now intros [= <-]|].
  destruct (str_eqb r c); [apply IH|now intros [= <-]].
Qed.

Lemma scan_loop_value_error fs ROOT name p ps :
  In p ps -> readable fs p = true -> is_ok (relative_to p ROOT) = false ->
  (forall q, In q ps -> is_ok (fs_is_dir fs q) = true) ->
  forall acc w, scan_loop fs ROOT name ps acc w = (Raise ValueError, w).
Proof.
  intros Hin Hr Hrel Hd. unfold readable, regular in Hr.
  apply andb_true_iff in Hr. destruct Hr as [Hp Hok].
  induction ps as [|q ps IH]; intros acc w; [destruct Hin|].
  assert (Hq : is_ok (fs_is_dir fs q) = true) by (apply Hd; now left).
  assert (Hps : forall x, In x ps -> is_ok (fs_is_dir fs x) = true)
    by (intros x Hx; apply Hd; now right).
  destruct (fs_is_dir fs q) as [[|]|e] eqn:Eq; [| |discriminate Hq].
  - rewrite (scan_loop_dir _ _ _ _ _ _ _ Eq).
    destruct Hin as [->|Hin]; [now rewrite Eq in Hp|]. now apply IH.
  - destruct (fs_read_text fs q) as [text|e] eqn:Er.
    + rewrite (scan_loop_read_ok _ _ _ _ _ _ _ _ Eq Er).
      destruct (relative_to q ROOT) as [rel|e] eqn:Erel.
      * destruct Hin as [->|Hin]; [now rewrite Erel in Hrel|]. now apply IH.
      * now rewrite (relative_to_raises _ _ _ Erel).
    + rewrite (scan_loop_read_error _ _ _ _ _ _ _ _ Eq Er).
      destruct Hin as [->|Hin]; [now rewrite Er in Hok|]. now apply IH.
Qed.

Lemma path_str_head c q : exists rest, path_str (c :: q) = c ++ rest.
Proof.
  destruct q as [|d q]; simpl.
  - exists []. now rewrite app_nil_r.
  - now eexists.
Qed.

Lemma path_str_last q : q <> [] -> exists pre, path_str q = pre ++ last q [].
Proof.
  induction q as [|c q IH]; intros H; [now destruct H|].
  destruct q as [|d q].
  - now exists [].
  - destruct (IH ltac:(discriminate)) as (pre & E).
    exists (c ++ [SLASH] ++ pre). cbn [path_str last] in *.
    rewrite E. now rewrite <- !app_assoc.
Qed.

Lemma last_app_cons (a : path) c q d : last (a ++ c :: q) d = last (c :: q) d.
Proof.
  induction a as [|x a IH]; [reflexivity|].
  simpl app. cbn [last]. destruct (a ++ c :: q) eqn:E; [|exact IH].
  now apply app_eq_nil in E.
Qed.

Lemma path_str_two c d q :
  exists rest, path_str (c :: d :: q) = c ++ [SLASH] ++ d ++ rest.
Proof.
  destruct (path_str_head d q) as (rest & E). exists rest.
  cbn [path_str]. cbn [path_str] in E. now rewrite E.
Qed.

Lemma section_item_well_formed fs ROOT name :
  In name [py "prompts"; py "toolsets"; py "chatmodes"] ->
  Forall well_formed_item
    (section_items fs ROOT name (path_join (GITHUB_DIR ROOT) name)).
Proof.
  intros Hname. rewrite section_dir_under. apply Forall_forall. intros it Hit.
  unfold section_items, section_files in Hit.
  apply in_map_iff in Hit. destruct Hit as (p & <- & Hp).
  destruct (fs_exists fs _) as [[|]|e]; try destruct Hp.
  apply filter_In in Hp. destruct Hp as [Hp _].
  apply (Permutation_in _ (sorted_perm _)) in Hp.
  unfold glob_all in Hp. apply in_map_iff in Hp. destruct Hp as (rel & <- & _).
  rewrite <- app_assoc. unfold well_formed_item, item_of.
  cbn [item_type item_path item_filename].
  rewrite skipn_under. split; [exact Hname|]. split.
  - destruct (path_str_two (py ".github") name rel) as (rest & E).
    exists rest. exact E.
  - unfold path_name.
    change ([py ".github"; name] ++ rel) with (py ".github" :: name :: rel).
    rewrite last_app_cons. apply path_str_last. discriminate.
Qed.

Lemma all_items_well_formed fs ROOT : Forall well_formed_item (all_items fs ROOT).
Proof.
  unfold all_items. rewrite !Forall_app. repeat split;
    apply section_item_well_formed; simpl; auto.
Qed.

Lemma all_items_bare fs ROOT :
  (forall name d, In (name, d) (SECTIONS ROOT) -> fs_exists fs d = Ok false) ->
  all_items fs ROOT = [].
Proof.
  intros H. unfold all_items, section_items, section_files.
  rewrite (H (py "prompts") (path_join (GITHUB_DIR ROOT) (py "prompts")))
    by (left; reflexivity).
  rewrite (H (py "toolsets") (path_join (GITHUB_DIR ROOT) (py "toolsets")))
    by (right; left; reflexivity).
  rewrite (H (py "chatmodes") (path_join (GITHUB_DIR ROOT) (py "chatmodes")))
    by (right; right; left; reflexivity).
  reflexivity.
Qed.

Lemma extract_whitespace text :
  forallb isspace text = true -> extract_title_and_description text = ([], []).
Proof.
  intros H.
  rewrite (surjective_pairing (extract_title_and_description text)). f_equal.
  - now apply title_nil_iff, first_nonempty_none_iff.
  - rewrite desc_eq. apply strip_nil_iff in H. now rewrite H.
Qed.

(** ** Paths of the records *)

Lemma app_slash_inj a a' x x' :
  ~ In SLASH a -> ~ In SLASH a' ->
  a ++ SLASH :: x = a' ++ SLASH :: x' -> a = a' /\ x = x'.
Proof.
  revert a'. induction a as [|c a IH]; intros [|c' a'] Ha Ha' E; simpl in *.
  - now injection E.
  - injection E as <- _. destruct Ha'. now left.
  - injection E as -> _. destruct Ha. now left.
  - injection E as <- E.
    destruct (IH a') as [-> ->]; auto.
Qed.

Lemma path_str_inj q q' :
  q <> [] -> q' <> [] -> slash_free q -> slash_free q' ->
  path_str q = path_str q' -> q = q'.
Proof.
  revert q'. induction q as [|c r IH]; intros [|c' r'] Hq Hq' Hs Hs' E;
    try congruence.
  assert (Hc : ~ In SLASH c) by (apply Hs; now left).
  assert (Hc' : ~ In SLASH c') by (apply Hs'; now left).
  destruct r as [|d r], r' as [|d' r']; cbn [path_str] in E.
  - now subst.
  - destruct Hc. rewrite E. apply in_or_app. right. now left.
  - destruct Hc'. rewrite <- E. apply in_or_app. right. now left.
  - destruct (app_slash_inj _ _ _ _ Hc Hc' E) as [-> E'].
    f_equal. apply IH; try discriminate; try assumption.
    + intros x Hx. apply Hs. now right.
    + intros x Hx. apply Hs'. now right.
Qed.

Lemma section_files_shape fs ROOT name p :
  In p (section_files fs (path_join (GITHUB_DIR ROOT) name)) ->
  exists rel, In rel (fs_glob fs (path_join (GITHUB_DIR ROOT) name))
              /\ p = ROOT ++ py ".github" :: name :: rel.
Proof.
  unfold section_files. destruct (fs_exists fs _) as [[|]|e]; try (intros []).
  intros Hp. apply filter_In in Hp. destruct Hp as [Hp _].
  apply (Permutation_in _ (sorted_perm _)) in Hp.
  unfold glob_all in Hp. apply in_map_iff in Hp. destruct Hp as (rel & <- & Hr).
  exists rel. split; [exact Hr|]. rewrite section_dir_under.
  now rewrite <- app_assoc.
Qed.

Lemma section_files_nodup fs d :
  NoDup (fs_glob fs d) -> NoDup (section_files fs d).
Proof.
  intros H. unfold section_files.
  destruct (fs_exists fs d) as [[|]|e]; try constructor.
  apply NoDup_filter. apply (Permutation_NoDup (Permutation_sym (sorted_perm _))).
  unfold glob_all. apply NoDup_map_NoDup_ForallPairs; [|exact H].
  intros a b _ _ E. now apply app_inv_head in E.
Qed.

Lemma section_name_slash_free name :
  In name [py "prompts"; py "toolsets"; py "chatmodes"] -> ~ In SLASH name.
Proof.
  intros [<-|[<-|[<-|[]]]] H; vm_compute in H;
    repeat (destruct H as [H|H]; [discriminate H|]); exact H.
Qed.

Lemma github_slash_free : ~ In SLASH (py ".github").
Proof.
  intros H. vm_compute in H.
  repeat (destruct H as [H|H]; [discriminate H|]). exact H.
Qed.

(** The relative paths of the files of the sections tell the files
    apart. *)
Lemma relative_str_inj fs ROOT name name' p p' :
  clean_listing fs ->
  In name [py "prompts"; py "toolsets"; py "chatmodes"] ->
  In name' [py "prompts"; py "toolsets"; py "chatmodes"] ->
  In p (section_files fs (path_join (GITHUB_DIR ROOT) name)) ->
  In p' (section_files fs (path_join (GITHUB_DIR ROOT) name')) ->
  relative_str ROOT p = relative_str ROOT p' -> p = p'.
Proof.
  intros Hc Hn Hn' Hp Hp' E.
  destruct (section_files_shape _ _ _ _ Hp) as (rel & Hr & ->).
  destruct (section_files_shape _ _ _ _ Hp') as (rel' & Hr' & ->).
  unfold relative_str in E. rewrite !skipn_under in E.
  apply path_str_inj in E; try discriminate.
  - now rewrite E.
  - intros c [<-|[<-|Hin]];
      [apply github_slash_free|now apply section_name_slash_free|].
    exact (proj2 (Hc _) rel Hr c Hin).
  - intros c [<-|[<-|Hin]];
      [apply github_slash_free|now apply section_name_slash_free|].
    exact (proj2 (Hc _) rel' Hr' c Hin).
Qed.

Lemma section_files_disjoint fs ROOT name name' p :
  name <> name' ->
  In p (section_files fs (path_join (GITHUB_DIR ROOT) name)) ->
  ~ In p (section_files fs (path_join (GITHUB_DIR ROOT) name')).
Proof.
  intros Hne Hp Hp'.
  destruct (section_files_shape _ _ _ _ Hp) as (rel & _ & ->).
  destruct (section_files_shape _ _ _ _ Hp') as (rel' & _ & E).
  apply app_inv_head in E. injection E as E _. now apply Hne.
Qed.

Lemma all_items_paths_nodup fs ROOT :
  clean_listing fs -> NoDup (map item_path (all_items fs ROOT)).
Proof.
  intros Hc. unfold all_items, section_items.
  assert (Hmap : forall name l,
             map item_path (map (item_of fs ROOT name) l) =
             map (relative_str ROOT) l)
    by (intros name l; rewrite map_map; reflexivity).
  rewrite !map_app, !Hmap, <- !map_app. clear Hmap.
  assert (HP : In (py "prompts") [py "prompts"; py "toolsets"; py "chatmodes"])
    by (left; reflexivity).
  assert (HT : In (py "toolsets") [py "prompts"; py "toolsets"; py "chatmodes"])
    by (right; left; reflexivity).
  assert (HC : In (py "chatmodes") [py "prompts"; py "toolsets"; py "chatmodes"])
    by (right; right; left; reflexivity).
  apply NoDup_map_NoDup_ForallPairs.
  - intros a b Ha Hb E.
    apply in_app_or in Ha. apply in_app_or in Hb.
    destruct Ha as [Ha|Ha]; [|apply in_app_or in Ha; destruct Ha as [Ha|Ha]];
    (destruct Hb as [Hb|Hb]; [|apply in_app_or in Hb; destruct Hb as [Hb|Hb]]);
    match goal with
    | Ha : In a (section_files fs (path_join _ ?n)),
      Hb : In b (section_files fs (path_join _ ?n')) |- _ =>
        apply (relative_str_inj fs ROOT n n' a b Hc);
          [assumption|assumption|exact Ha|exact Hb|exact E]
    end.
  - apply NoDup_app; [now apply section_files_nodup, Hc| |].
    + apply NoDup_app; [now apply section_files_nodup, Hc
                       |now apply section_files_nodup, Hc|].
      intros p. apply section_files_disjoint. discriminate.
    + intros p Hp Hin. apply in_app_or in Hin. destruct Hin as [Hin|Hin];
        revert Hin; apply (section_files_disjoint fs ROOT (py "prompts"));
        try exact Hp; discriminate.
Qed.

(** * Further properties of the extractor *)

(** X1.  The first line that, once trimmed, starts with '#' decides the
    title whenever something is left of it without its markers, also when
    lines without marker come before it. *)
Theorem title_of_first_header text h :
  first_header_line text = Some h ->
  strip_markers h <> [] ->
  fst (extract_title_and_description text) = strip_markers h.
Proof.
  intros Hh Hrest.
  pose proof (find_stripped _ _ _ Hh) as Hs.
  assert (Hhash : startswith_hash h = true).
  { unfold first_header_line in Hh. now apply find_some in Hh. }
  rewrite title_eq, Hh. simpl.
  rewrite re_sub_header, strip_markers_stripped by assumption.
  destruct (strip_markers h); [now destruct Hrest|reflexivity].
Qed.

Lemma title_of_first_header_witness :
  fst (extract_title_and_description
         (py "intro" ++ [LF] ++ py " ## Real title" ++ [LF] ++ py "# Other")) =
  py "Real title".
Proof.
  apply (title_of_first_header _ (py "## Real title")).
  - reflexivity.
  - discriminate.
Defined.

(** X2.  The title is empty exactly when the text holds nothing but
    whitespace. *)
Theorem title_empty_iff_blank text :
  fst (extract_title_and_description text) = [] <->
  forallb isspace text = true.
Proof. rewrite title_nil_iff. apply first_nonempty_none_iff. Qed.

Lemma title_empty_iff_blank_witness :
  fst (extract_title_and_description [SPACE; CR; LF; 0x09]) = [].
Proof. apply (proj2 (title_empty_iff_blank [SPACE; CR; LF; 0x09])). reflexivity. Defined.

(** X3.  The description is empty exactly when every paragraph of the
    text begins, once trimmed, with '#'. *)
Theorem description_empty_iff_headers text :
  snd (extract_title_and_description text) = [] <->
  forall p, In p (spec_paragraphs text) -> startswith_hash (strip p) = true.
Proof.
  rewrite desc_spec. unfold spec_description.
  pose proof (spec_paragraphs_not_blank text) as Hnb.
  rewrite Forall_forall in Hnb.
  destruct (find _ (spec_paragraphs text)) as [p|] eqn:E.
  - apply find_some in E. destruct E as [Hin Hp]. split.
    + intros H. rewrite strip_replace_lf in H.
      apply map_eq_nil in H. now apply Hnb in H.
    + intros H. rewrite (H p Hin) in Hp. discriminate.
  - split; [|reflexivity]. intros _ p Hin.
    pose proof (find_none _ _ E p Hin) as Hp. now apply negb_false_iff in Hp.
Qed.

Lemma description_empty_iff_headers_witness :
  snd (extract_title_and_description
         (py "# T" ++ [LF] ++ py "body" ++ [LF; LF] ++ py "  ## U")) = [].
Proof.
  apply (proj2 (description_empty_iff_headers _)).
  intros p Hp. vm_compute in Hp.
  repeat (destruct Hp as [<-|Hp]; [reflexivity|]). destruct Hp.
Defined.

(** X4.  A text without line boundary that does not start, once trimmed,
    with '#' is, trimmed, both its title and its description. *)
Theorem single_line_is_title_and_description text :
  forallb (fun c => negb (is_linebreak c)) text = true ->
  startswith_hash (strip text) = false ->
  extract_title_and_description text = (strip text, strip text).
Proof.
  intros Hnl Hh.
  rewrite (surjective_pairing (extract_title_and_description text)). f_equal.
  - rewrite title_eq. unfold first_header_line, first_nonempty_line,
      stripped_lines. rewrite (splitlines_one_line _ Hnl).
    destruct text as [|c r]; [reflexivity|].
    simpl map. simpl find. rewrite Hh. simpl.
    now destruct (strip (c :: r)).
  - rewrite desc_eq.
    pose proof (no_lf_strip _ (no_lf_of_no_linebreak _ Hnl)) as Hs.
    rewrite re_split_paragraphs, (re_search_last_line _ Hs). simpl.
    rewrite strip_idem. destruct (strip text) as [|c r] eqn:E; [reflexivity|].
    rewrite Hh. simpl. rewrite (replace_lf_no_lf _ Hs), <- E.
    apply strip_idem.
Qed.

Lemma single_line_is_title_and_description_witness :
  extract_title_and_description (py "  Just a line of text ") =
  (py "Just a line of text", py "Just a line of text").
Proof.
  apply (single_line_is_title_and_description (py "  Just a line of text "));
    reflexivity.
Defined.

(** X5.  Whitespace before and after the text (blank lines included) does
    not change the title nor the description. *)
Theorem surrounding_whitespace_is_ignored a text b :
  forallb isspace a = true ->
  forallb isspace b = true ->
  extract_title_and_description (a ++ text ++ b) =
  extract_title_and_description text.
Proof. apply extract_padding. Qed.

Lemma surrounding_whitespace_is_ignored_witness :
  extract_title_and_description
    ([LF; SPACE; CR] ++ (py "# T" ++ [LF; LF] ++ py "body") ++ [CR; LF; SPACE]) =
  extract_title_and_description (py "# T" ++ [LF; LF] ++ py "body").
Proof. apply surrounding_whitespace_is_ignored; reflexivity. Defined.

(** X6.  Nothing is made up: the title is a contiguous piece of the text,
    and the description is a contiguous piece of the text whose newlines
    are replaced by spaces. *)
Theorem title_and_description_come_from_text text :
  infix (fst (extract_title_and_description text)) text
  /\ exists p, infix p text
               /\ snd (extract_title_and_description text) = replace_lf p.
Proof. split; [apply title_infix|apply desc_piece]. Qed.

(** X7.  When no line of the text starts, once trimmed, with '#', the
    description starts with the title. *)
Theorem description_starts_with_title text :
  first_header_line text = None ->
  exists rest,
    snd (extract_title_and_description text) =
    fst (extract_title_and_description text) ++ rest.
Proof.
  intros Hh. destruct (strip_split text) as (a & b & E & Ha & Hb).
  rewrite E, (extract_padding _ _ _ Ha Hb).
  apply title_prefix_trimmed; [apply strip_idem|].
  rewrite first_header_of_title_lines in *.
  rewrite E in Hh. now rewrite (title_lines_padding _ _ _ Ha Hb) in Hh.
Qed.

Lemma description_starts_with_title_witness :
  exists rest,
    snd (extract_title_and_description
           ([LF] ++ py " first line " ++ [CR; LF] ++ py "second" ++ [LF; LF] ++
            py "next")) =
    fst (extract_title_and_description
           ([LF] ++ py " first line " ++ [CR; LF] ++ py "second" ++ [LF; LF] ++
            py "next")) ++ rest.
Proof. apply description_starts_with_title. reflexivity. Defined.

(** * Further properties of the scan *)

Lemma scan_loop_raises fs ROOT name p ps :
  In p ps -> readable fs p = true -> is_ok (relative_to p ROOT) = false ->
  forall acc w, exists e, scan_loop fs ROOT name ps acc w = (Raise e, w).
Proof.
  intros Hin Hr Hrel. unfold readable, regular in Hr.
  apply andb_true_iff in Hr. destruct Hr as [Hp Hok].
  induction ps as [|q ps IH]; intros acc w; [destruct Hin|].
  destruct (fs_is_dir fs q) as [[|]|e] eqn:Eq.
  - rewrite (scan_loop_dir _ _ _ _ _ _ _ Eq).
    destruct Hin as [->|Hin]; [now rewrite Eq in Hp|]. now apply IH.
  - destruct (fs_read_text fs q) as [text|e] eqn:Er.
    + rewrite (scan_loop_read_ok _ _ _ _ _ _ _ _ Eq Er).
      destruct (relative_to q ROOT) as [rel|e] eqn:Erel.
      * destruct Hin as [->|Hin]; [now rewrite Erel in Hrel|]. now apply IH.
      * now exists e.
    + rewrite (scan_loop_read_error _ _ _ _ _ _ _ _ Eq Er).
      destruct Hin as [->|Hin]; [now rewrite Er in Hok|]. now apply IH.
  - exists e. now apply scan_loop_stat_error.
Qed.

Lemma scan_section_missing fs ROOT name d w :
  fs_exists fs d = Ok false -> scan_section fs ROOT name d w = (Ok [], w).
Proof. intros H. unfold scan_section, bind, lift. now rewrite H. Qed.

(** X8.  [relative_to] is outside the [try]: when the directory holds a
    readable file that does not lie below the root, [scan_section] returns
    no record but raises, and what it raises is [ValueError] when
    [is_dir()] answers for every path of the listing. *)
Theorem file_outside_root_raises fs ROOT name d p w :
  fs_exists fs d = Ok true ->
  In p (glob_all fs d) ->
  readable fs p = true ->
  is_ok (relative_to p ROOT) = false ->
  (exists e, scan_section fs ROOT name d w = (Raise e, w))
  /\ (listing_inspectable fs d ->
      scan_section fs ROOT name d w = (Raise ValueError, w)).
Proof.
  intros He Hin Hr Hrel.
  assert (Hs : In p (sorted (glob_all fs d)))
    by (apply (Permutation_in _ (Permutation_sym (sorted_perm _))); exact Hin).
  unfold scan_section, bind, lift. rewrite He. cbn [negb]. split.
  - now apply (scan_loop_raises fs ROOT name p).
  - intros Hl. apply (scan_loop_value_error fs ROOT name p); try assumption.
    intros q Hq. apply Hl. apply (Permutation_in _ (sorted_perm _)). exact Hq.
Qed.

Lemma file_outside_root_raises_witness :
  scan_section ex_fs1 [py "elsewhere"] (py "prompts") ex_prompts ex_world =
  (Raise ValueError, ex_world).
Proof.
  apply (file_outside_root_raises ex_fs1 [py "elsewhere"] (py "prompts")
           ex_prompts (ex_prompts ++ [py "a.md"]) ex_world).
  - reflexivity.
  - right. right. left. reflexivity.
  - reflexivity.
  - reflexivity.
  - exact ex_prompts_inspectable.
Defined.

(** X9.  [scan_section] prints nothing and writes nothing, whether it
    returns records or raises. *)
Theorem scan_leaves_state_alone fs ROOT name d w :
  snd (scan_section fs ROOT name d w) = w.
Proof.
  unfold scan_section, bind, lift.
  destruct (fs_exists fs d) as [[|]|e]; simpl; try reflexivity.
  apply scan_loop_state.
Qed.

(** X10.  A readable file that holds nothing but whitespace (an empty
    file, for one) is not passed over: it gives a record, with an empty
    title and an empty description. *)
Theorem blank_file_gives_record fs ROOT name p ps acc w text rel :
  fs_is_dir fs p = Ok false ->
  fs_read_text fs p = Ok text ->
  forallb isspace text = true ->
  relative_to p ROOT = Ok rel ->
  scan_loop fs ROOT name (p :: ps) acc w =
  scan_loop fs ROOT name ps
    (acc ++ [ {| item_path := path_str rel;
                 item_type := name;
                 item_filename := path_name p;
                 item_title := [];
                 item_description := [] |} ]) w.
Proof.
  intros Hd Hr Hb Hrel.
  rewrite (scan_loop_read_ok _ _ _ _ _ _ _ _ Hd Hr).
  now rewrite (extract_whitespace _ Hb), Hrel.
Qed.

Lemma blank_file_gives_record_witness :
  scan_loop ex_fs_blank ex_root (py "prompts") [ex_prompts ++ [py "a.md"]]
    [] ex_world =
  scan_loop ex_fs_blank ex_root (py "prompts") []
    ([] ++ [ {| item_path := path_str [py ".github"; py "prompts"; py "a.md"];
                item_type := py "prompts";
                item_filename := path_name (ex_prompts ++ [py "a.md"]);
                item_title := [];
                item_description := [] |} ]) ex_world.
Proof.
  apply (blank_file_gives_record ex_fs_blank ex_root (py "prompts")
           (ex_prompts ++ [py "a.md"]) [] [] ex_world [SPACE; LF]
           [py ".github"; py "prompts"; py "a.md"]);
    reflexivity.
Defined.

(** X11.  Nothing catches a failure to make the output directory or to
    write the output file: once the scan has returned (no [stat] of it
    raised), [main] raises that exception, writes no file and prints no
    line; and whenever one of the two fails, [main] raises and neither
    writes nor prints. *)
Theorem write_failure_is_fatal fs ROOT now w e :
  (inspectable fs ROOT ->
   fs_mkdir fs (OUT_DIR ROOT) = Raise e ->
   main fs ROOT now w = (Raise e, w))
  /\ (inspectable fs ROOT ->
      fs_mkdir fs (OUT_DIR ROOT) = Ok tt ->
      fs_write_text fs (OUT_FILE ROOT) = Raise e ->
      main fs ROOT now w = (Raise e, w))
  /\ (fs_mkdir fs (OUT_DIR ROOT) = Raise e
      \/ fs_write_text fs (OUT_FILE ROOT) = Raise e ->
      exists e', main fs ROOT now w = (Raise e', w)).
Proof.
  split; [|split].
  - intros Hi Hm.
    rewrite (main_after_scan fs ROOT now w _ (sections_loop_eq fs ROOT w Hi)).
    now rewrite Hm.
  - intros Hi Hm Hw.
    rewrite (main_after_scan fs ROOT now w _ (sections_loop_eq fs ROOT w Hi)).
    now rewrite Hm, Hw.
  - intros H.
    destruct (sections_loop_outcome fs ROOT w) as [E|(e' & E)];
      rewrite (main_after_scan fs ROOT now w _ E); [|now exists e'].
    destruct (fs_mkdir fs (OUT_DIR ROOT)) as [u|e1]; [|now exists e1].
    destruct (fs_write_text fs (OUT_FILE ROOT)) as [u'|e2]; [|now exists e2].
    destruct H as [H|H]; discriminate H.
Qed.

Lemma ex_nodir_inspectable : inspectable ex_fs_nodir ex_root.
Proof. intros name d _. split; [reflexivity|]. intros p _. reflexivity. Defined.

Lemma ex_readonly_inspectable : inspectable ex_fs_readonly ex_root.
Proof. intros name d _. split; [reflexivity|]. intros p _. reflexivity. Defined.

Lemma write_failure_is_fatal_witness :
  main ex_fs_nodir ex_root (py "2024-01-01T00:00:00") ex_world =
    (Raise PermissionError, ex_world)
  /\ main ex_fs_readonly ex_root (py "2024-01-01T00:00:00") ex_world =
    (Raise PermissionError, ex_world).
Proof.
  split.
  - apply (proj1 (write_failure_is_fatal ex_fs_nodir ex_root
                    (py "2024-01-01T00:00:00") ex_world PermissionError)).
    + exact ex_nodir_inspectable.
    + reflexivity.
  - apply (proj1 (proj2 (write_failure_is_fatal ex_fs_readonly ex_root
                    (py "2024-01-01T00:00:00") ex_world PermissionError))).
    + exact ex_readonly_inspectable.
    + reflexivity.
    + reflexivity.
Defined.

(** X12.  Every record that a run writes has one of the three section
    names as its type, a path below [.github/<type>] (relative to the
    root) and a path that ends with its file name. *)
Theorem records_are_well_formed fs ROOT now w :
  inspectable fs ROOT ->
  writable fs ROOT ->
  exists its,
    main fs ROOT now w = (Ok tt, after_run ROOT now its w)
    /\ Forall well_formed_item its.
Proof.
  intros Hi Hw. exists (all_items fs ROOT).
  split; [now apply main_eq|apply all_items_well_formed].
Qed.

Lemma records_are_well_formed_witness :
  exists its,
    main ex_fs1 ex_root (py "2024-01-01T00:00:00") ex_world =
    (Ok tt, after_run ex_root (py "2024-01-01T00:00:00") its ex_world)
    /\ Forall well_formed_item its.
Proof.
  apply (records_are_well_formed ex_fs1 ex_root).
  - exact ex_inspectable.
  - split; reflexivity.
Defined.

(** X13.  When none of the three directories exists the run still
    succeeds: it writes a document without records and prints a count
    of zero. *)
Theorem run_without_directories fs ROOT now w :
  (forall name d, In (name, d) (SECTIONS ROOT) -> fs_exists fs d = Ok false) ->
  writable fs ROOT ->
  main fs ROOT now w = (Ok tt, after_run ROOT now [] w).
Proof.
  intros Hn [Hm Hw].
  assert (E : sections_loop fs ROOT (SECTIONS ROOT) [] w = (Ok [], w)).
  { unfold SECTIONS in *. cbn [sections_loop]. unfold bind.
    rewrite (scan_section_missing fs ROOT _ _ w
               (Hn _ _ (or_introl eq_refl))).
    rewrite (scan_section_missing fs ROOT _ _ w
               (Hn _ _ (or_intror (or_introl eq_refl)))).
    rewrite (scan_section_missing fs ROOT _ _ w
               (Hn _ _ (or_intror (or_intror (or_introl eq_refl))))).
    reflexivity. }
  rewrite (main_after_scan fs ROOT now w _ E). now rewrite Hm, Hw.
Qed.

Lemma run_without_directories_witness :
  main ex_fs_bare ex_root (py "2024-01-01T00:00:00") ex_world =
  (Ok tt,
   {| stdout := [Wrote (OUT_FILE ex_root) 0];
      written := [(OUT_FILE ex_root,
                   {| generated_at := py "2024-01-01T00:00:00Z";
                      items := [] |})] |}).
Proof.
  apply (run_without_directories ex_fs_bare ex_root
           (py "2024-01-01T00:00:00") ex_world).
  - intros name d _. reflexivity.
  - split; reflexivity.
Defined.

(** X14.  When the directory listings hold no entry twice and no name
    with a '/' in it, no two records of a run have the same path. *)
Theorem record_paths_are_unique fs ROOT now w :
  inspectable fs ROOT ->
  writable fs ROOT ->
  clean_listing fs ->
  exists its,
    main fs ROOT now w = (Ok tt, after_run ROOT now its w)
    /\ NoDup (map item_path its).
Proof.
  intros Hi Hw Hc. exists (all_items fs ROOT).
  split; [now apply main_eq|now apply all_items_paths_nodup].
Qed.

Lemma ex_clean_listing : clean_listing ex_fs1.
Proof.
  intros d. simpl. destruct (path_eqb d ex_prompts).
  - split.
    + repeat constructor; intros H; vm_compute in H;
        repeat (destruct H as [H|H]; [discriminate H|]); exact H.
    + intros rel Hrel c Hc H. vm_compute in Hrel.
      repeat (destruct Hrel as [<-|Hrel];
              [vm_compute in Hc;
               repeat (destruct Hc as [<-|Hc];
                       [vm_compute in H;
                        repeat (destruct H as [H|H]; [discriminate H|]);
                        exact H|]);
               exact Hc|]).
      exact Hrel.
  - split; [constructor|intros rel []].
Defined.

Lemma record_paths_are_unique_witness :
  exists its,
    main ex_fs1 ex_root (py "2024-01-01T00:00:00") ex_world =
    (Ok tt, after_run ex_root (py "2024-01-01T00:00:00") its ex_world)
    /\ NoDup (map item_path its).
Proof.
  apply (record_paths_are_unique ex_fs1 ex_root).
  - exact ex_inspectable.
  - split; reflexivity.
  - exact ex_clean_listing.
Defined.
